(** * md_to_image.py: layout and pagination engine

    A shallow embedding of [scripts/md_to_image.py] (inline tokenizer, line
    wrapper, height estimator, paginator, element renderer and the newline
    preprocessing of [MarkdownToImage.convert]) together with the properties
    the specification states about them.

    Conventions.
    - A Python [str] is a sequence of Unicode code points: [str := list N].
      Literals are written [lit "..."].
    - Python [int] is unbounded: [Z].  Indices into a string never go below
      zero in this program and are kept in [nat].
    - A dict [{'type': t, 'content': c}] is the record [Segment].
    - PIL's [font.getbbox] is the one external function the layout depends
      on; it is a [Variable] of the section that holds the renderer. *)

From Stdlib Require Import String Ascii.
From Stdlib Require Import List ZArith NArith Bool Lia.
From Stdlib Require Import Numbers.DecimalString.
Import ListNotations.

Set Implicit Arguments.

(** ** Python strings *)

Module PyStr.

Definition char := N.
Definition str := list char.

Definition lit (s : string) : str :=
  List.map N_of_ascii (list_ascii_of_string s).

Definition char_eq_dec : forall a b : char, {a = b} + {a <> b} := N.eq_dec.
Definition str_eq_dec : forall a b : str, {a = b} + {a <> b} :=
  list_eq_dec N.eq_dec.

Definition str_eqb (a b : str) : bool :=
  if str_eq_dec a b then true else false.

(** [len(s)] as a Python int. *)
Definition len (s : str) : Z := Z.of_nat (length s).

(** [bool(s)]: a string is truthy when it is not empty. *)
Definition truthy (A : Type) (l : list A) : bool :=
  match l with [] => false | _ :: _ => true end.

(** [s[i:j]] for [0 <= i], [0 <= j]; out-of-range bounds are clamped. *)
Definition slice (s : str) (i j : nat) : str := firstn (j - i) (skipn i s).

(** [s[i]] for [0 <= i]; [None] stands for [IndexError]. *)
Definition char_at (s : str) (i : nat) : option char := nth_error s i.

(** [s[i] == c], used only where [i < len(s)] holds. *)
Definition char_is (s : str) (i : nat) (c : string) : bool :=
  match char_at s i with
  | Some x => str_eqb [x] (lit c)
  | None => false
  end.

Fixpoint is_prefix (p s : str) : bool :=
  match p, s with
  | [], _ => true
  | _ :: _, [] => false
  | a :: p', b :: s' => if char_eq_dec a b then is_prefix p' s' else false
  end.

(** The lowest position [>= p] at which [sub] occurs, [s] being the suffix of
    the searched string that starts at position [p]. *)
Fixpoint find_from (sub s : str) (p : nat) : option nat :=
  if is_prefix sub s then Some p
  else match s with
       | [] => None
       | _ :: s' => find_from sub s' (S p)
       end.

(** [s.find(sub, start)]; [None] stands for [-1]. *)
Definition find (s sub : str) (start : nat) : option nat :=
  if (start <=? length s)%nat then find_from sub (skipn start s) start
  else None.

(** [s.split(sep)] for a one-character separator: always at least one
    field. *)
Fixpoint split (sep : char) (s : str) : list str :=
  match s with
  | [] => [[]]
  | c :: s' =>
      if char_eq_dec c sep then [] :: split sep s'
      else match split sep s' with
           | [] => [[c]]
           | f :: fs => (c :: f) :: fs
           end
  end.

Definition newline : char := 10%N.

(** [l[-1]] of a list that may be empty. *)
Definition last_item (A : Type) (l : list A) : option A :=
  match rev l with
  | [] => None
  | x :: _ => Some x
  end.

End PyStr.
Import PyStr.

(** ** Inline spans *)

Inductive SpanType :=
| normal | bold | italic | bold_italic | code | highlight.

Definition SpanType_eq_dec : forall a b : SpanType, {a = b} + {a <> b}.
Proof. decide equality. Defined.

Definition type_eqb (a b : SpanType) : bool :=
  if SpanType_eq_dec a b then true else false.

(** [{'type': ..., 'content': ...}] *)
Record Segment := mkSeg { type : SpanType; content : str }.

(** The text carried by a sequence of segments. *)
Definition text_of (segs : list Segment) : str := concat (List.map content segs).

(** ** [ImageRenderer._parse_inline_format] *)

Module Tokenizer.

(** Result of a successful delimiter match at position [i]: the kind, the
    enclosed content and the position after the closing delimiter. *)
Definition Match := (SpanType * str * nat)%type.

(** [***bold italic***] *)
Definition match_bold_italic (text : str) (i n : nat) : option Match :=
  if (i + 6 <=? n)%nat && str_eqb (slice text i (i + 3)) (lit "***") then
    match find text (lit "***") (i + 3) with
    | Some end_ => Some (bold_italic, slice text (i + 3) end_, end_ + 3)%nat
    | None => None
    end
  else None.

(** [**bold**] *)
Definition match_bold_star (text : str) (i n : nat) : option Match :=
  if (i + 4 <=? n)%nat && str_eqb (slice text i (i + 2)) (lit "**") then
    match find text (lit "**") (i + 2) with
    | Some end_ => Some (bold, slice text (i + 2) end_, end_ + 2)%nat
    | None => None
    end
  else None.

(** [*italic*] *)
Definition match_italic_star (text : str) (i n : nat) : option Match :=
  if (i + 2 <=? n)%nat && char_is text i "*"
     && negb (str_eqb (slice text i (i + 2)) (lit "**")) then
    match find text (lit "*") (i + 1) with
    | Some end_ =>
        if negb (str_eqb (slice text end_ (end_ + 2)) (lit "**"))
        then Some (italic, slice text (i + 1) end_, end_ + 1)%nat
        else None
    | None => None
    end
  else None.

(** [`code`] *)
Definition match_code (text : str) (i n : nat) : option Match :=
  if char_is text i "`" then
    match find text (lit "`") (i + 1) with
    | Some end_ => Some (code, slice text (i + 1) end_, end_ + 1)%nat
    | None => None
    end
  else None.

(** [==highlight==] *)
Definition match_highlight (text : str) (i n : nat) : option Match :=
  if (i + 4 <=? n)%nat && str_eqb (slice text i (i + 2)) (lit "==") then
    match find text (lit "==") (i + 2) with
    | Some end_ => Some (highlight, slice text (i + 2) end_, end_ + 2)%nat
    | None => None
    end
  else None.

(** [__bold__] *)
Definition match_bold_under (text : str) (i n : nat) : option Match :=
  if (i + 4 <=? n)%nat && str_eqb (slice text i (i + 2)) (lit "__") then
    match find text (lit "__") (i + 2) with
    | Some end_ => Some (bold, slice text (i + 2) end_, end_ + 2)%nat
    | None => None
    end
  else None.

(** [_italic_] *)
Definition match_italic_under (text : str) (i n : nat) : option Match :=
  if char_is text i "_"
     && negb (str_eqb (slice text i (i + 2)) (lit "__")) then
    match find text (lit "_") (i + 1) with
    | Some end_ =>
        if negb (str_eqb (slice text end_ (end_ + 2)) (lit "__"))
        then Some (italic, slice text (i + 1) end_, end_ + 1)%nat
        else None
    | None => None
    end
  else None.

(** [a] unless it left [matched] false, then [b]. *)
Definition or_else (A : Type) (a b : option A) : option A :=
  match a with Some _ => a | None => b end.

(** The chain of [if not matched and ...] tests of one loop iteration, in
    the order of the source. *)
Definition match_at (text : str) (i n : nat) : option Match :=
  or_else (match_bold_italic text i n)
  (or_else (match_bold_star text i n)
  (or_else (match_italic_star text i n)
  (or_else (match_code text i n)
  (or_else (match_highlight text i n)
  (or_else (match_bold_under text i n)
           (match_italic_under text i n)))))).

(** [c in '*`_='] *)
Definition is_special (c : char) : bool :=
  if in_dec char_eq_dec c (lit "*`_=") then true else false.

Fixpoint first_special (s : str) (pos : nat) : option nat :=
  match s with
  | [] => None
  | c :: s' => if is_special c then Some pos else first_special s' (S pos)
  end.

(** [next_special = n; for pos in range(i+1, n): if text[pos] in '*`_=':
    next_special = pos; break] *)
Definition next_special (text : str) (i n : nat) : nat :=
  match first_special (slice text (i + 1) n) (i + 1) with
  | Some pos => pos
  | None => n
  end.

(** One iteration of [while i < n], on the loop state [(i, segments)]. *)
Definition loop_body (text : str) (n : nat) (st : nat * list Segment)
  : nat * list Segment :=
  let '(i, segments) := st in
  match match_at text i n with
  | Some (ty, c, i') =>
      (i', if truthy c then segments ++ [mkSeg ty c] else segments)
  | None =>
      let ns := next_special text i n in
      (ns, segments ++ [mkSeg normal (slice text i ns)])
  end.

(** [while i < n: ...], with [fuel] bounding the number of iterations.  Each
    iteration moves [i] forward, so [n] iterations are enough
    ([scan_exits]). *)
Fixpoint while_loop (fuel : nat) (text : str) (n : nat)
         (st : nat * list Segment) : nat * list Segment :=
  match fuel with
  | O => st
  | S fuel' =>
      if (fst st <? n)%nat then while_loop fuel' text n (loop_body text n st)
      else st
  end.

(** The list [segments] when the scanning loop is left. *)
Definition scan (text : str) : list Segment :=
  let n := length text in
  snd (while_loop n text n (0%nat, [])).

(** One iteration of [for seg in segments] of the merging pass.
    [merged.append(seg)] puts the dict of [segments] itself into [merged],
    and [merged[-1]['content'] += ...] then changes it in both lists; the
    loop never reads an element of [segments] again once it is past it, so
    the lists are kept apart here. *)
Definition merge_step (merged : list Segment) (seg : Segment) : list Segment :=
  if truthy (content seg) then
    match last_item merged with
    | Some l =>
        if type_eqb (type seg) normal && type_eqb (type l) normal
        then removelast merged ++ [mkSeg normal (content l ++ content seg)]
        else merged ++ [seg]
    | None => merged ++ [seg]
    end
  else merged.

Definition merge (segments : list Segment) : list Segment :=
  fold_left merge_step segments [].

Definition _parse_inline_format (text : str) : list Segment :=
  let merged := merge (scan text) in
  if truthy merged then merged else [mkSeg normal text].

End Tokenizer.
Import Tokenizer.

Open Scope Z_scope.

(** ** [StyleConfig] *)

Definition Color := (Z * Z * Z)%type.

Module Style.

Record StyleConfig := mkStyle {
  width : Z;
  height : Z;
  margin_left : Z;
  margin_right : Z;
  margin_top : Z;
  margin_bottom : Z;
  bg_color : Color;
  text_color : Color;
  title_color : Color;
  highlight_bg : Color;
  highlight_text : Color;
  code_bg : Color;
  border_color : Color;
  title_font_size : Z;
  h1_font_size : Z;
  h2_font_size : Z;
  h3_font_size : Z;
  body_font_size : Z;
  code_font_size : Z;
  small_font_size : Z;
  title_line_spacing : Z;
  h1_line_spacing : Z;
  h2_line_spacing : Z;
  h3_line_spacing : Z;
  body_line_spacing : Z;
  code_line_spacing : Z;
  paragraph_spacing : Z;
  font_regular : str;
  font_bold : str
}.

(** The dataclass defaults. *)
Definition default : StyleConfig := {|
  width := 900;
  height := 1600;
  margin_left := 50;
  margin_right := 50;
  margin_top := 50;
  margin_bottom := 50;
  bg_color := (255, 255, 255);
  text_color := (0, 0, 0);
  title_color := (0, 0, 0);
  highlight_bg := (255, 230, 235);
  highlight_text := (0, 0, 0);
  code_bg := (240, 240, 240);
  border_color := (220, 220, 220);
  title_font_size := 60;
  h1_font_size := 52;
  h2_font_size := 44;
  h3_font_size := 40;
  body_font_size := 36;
  code_font_size := 28;
  small_font_size := 26;
  title_line_spacing := 82;
  h1_line_spacing := 72;
  h2_line_spacing := 64;
  h3_line_spacing := 56;
  body_line_spacing := 64;
  code_line_spacing := 50;
  paragraph_spacing := 40;
  font_regular :=
    [19978; 22270; 19996; 35266; 20307; 45; 24120; 35268]%N ++ lit ".ttf";
  font_bold :=
    [19978; 22270; 19996; 35266; 20307; 45; 31895; 20307]%N ++ lit ".ttf"
|}.

End Style.

(** ** Blocks *)

(** The element dicts built by [MarkdownParser.parse]; [E_other] stands for a
    dict whose ['type'] is none of the nine the renderer knows. *)
Inductive Element :=
| E_h1 (content : str)
| E_h2 (content : str)
| E_h3 (content : str)
| E_paragraph (content : str)
| E_code (content language : str)
| E_quote (content : str)
| E_list (items : list str)
| E_ordered_list (items : list str)
| E_hr
| E_other (type_ : str).

(** The font objects held by [ImageRenderer]. *)
Inductive Font :=
| font_title | font_h1 | font_h2 | font_h3
| font_body | font_code | font_small | font_bold.

(** What [ImageDraw.Draw] is asked to do. *)
Inductive DrawOp :=
| draw_text (x y : Z) (s : str) (font : Font) (fill : Color)
| draw_rectangle (x0 y0 x1 y1 : Z) (fill : Color) (outline : option Color)
| draw_line (x0 y0 x1 y1 : Z) (fill : Color) (line_width : Z).

(** [str(k)] for a natural number. *)
Definition decimal (k : nat) : str :=
  lit (NilEmpty.string_of_uint (Nat.to_uint k)).

(** [enumerate(l)] *)
Definition enumerate (A : Type) (l : list A) : list (nat * A) :=
  combine (seq 0 (length l)) l.

(** ** [ImageRenderer] *)

Section Renderer.

Variable style : Style.StyleConfig.

(** [font.getbbox(text)]: [(left, top, right, bottom)]. *)
Variable getbbox : Font -> str -> Z * Z * Z * Z.

Definition _get_text_size (text : str) (font : Font) : Z * Z :=
  let '(x0, y0, x1, y1) := getbbox font text in
  (x1 - x0, y1 - y0).

(** *** [_wrap_text] *)

(** One iteration of [for char in text], on [(lines, current_line)]. *)
Definition wrap_text_step (font : Font) (max_width : Z)
           (st : list str * str) (c : char) : list str * str :=
  let '(lines, current_line) := st in
  let test_line := current_line ++ [c] in
  let '(width, _) := _get_text_size test_line font in
  if width <=? max_width then (lines, test_line)
  else ((if truthy current_line then lines ++ [current_line] else lines), [c]).

Definition _wrap_text (text : str) (font : Font) (max_width : Z) : list str :=
  let '(lines, current_line) :=
    fold_left (wrap_text_step font max_width) text ([], []) in
  let lines := if truthy current_line then lines ++ [current_line] else lines in
  if truthy lines then lines else if truthy text then [text] else [].

(** *** [_wrap_formatted_text] *)

Definition Line := list Segment.

Definition is_formatted (seg_type : SpanType) : bool :=
  match seg_type with
  | bold | italic | bold_italic | highlight | code => true
  | normal => false
  end.

(** [if seg_type == 'bold': self.font_bold elif seg_type == 'code':
    self.font_code else: font] *)
Definition seg_font_of (font : Font) (seg_type : SpanType) : Font :=
  match seg_type with
  | bold => font_bold
  | code => font_code
  | _ => font
  end.

(** [if current_line and current_line[-1]['type'] == seg_type:
       current_line[-1]['content'] += content
     else: current_line.append({'type': seg_type, 'content': content})]
    Every dict of a line is built by the wrapper itself, and [current_line]
    is bound to a new list right after it has been appended to [lines]:
    the update touches neither the input spans nor a sealed line. *)
Definition put (current_line : Line) (seg_type : SpanType) (c : str) : Line :=
  match last_item current_line with
  | Some l =>
      if type_eqb (type l) seg_type
      then removelast current_line ++ [mkSeg seg_type (content l ++ c)]
      else current_line ++ [mkSeg seg_type c]
  | None => current_line ++ [mkSeg seg_type c]
  end.

(** [if current_line: lines.append(current_line)] *)
Definition flush (lines : list Line) (current_line : Line) : list Line :=
  if truthy current_line then lines ++ [current_line] else lines.

(** The wrapper's loop state [(lines, current_line, current_width)]. *)
Definition WrapState := (list Line * Line * Z)%type.

(** One iteration of [while char_idx < len(content)]. *)
Definition char_step (seg_type : SpanType) (seg_font : Font) (max_width : Z)
           (st : WrapState) (c : char) : WrapState :=
  let '(lines, current_line, current_width) := st in
  let '(char_width, _) := _get_text_size [c] seg_font in
  if current_width + char_width <=? max_width then
    (lines, put current_line seg_type [c], current_width + char_width)
  else
    (flush lines current_line, [mkSeg seg_type [c]], char_width).

(** One iteration of [for seg in segments]. *)
Definition seg_step (font : Font) (max_width : Z)
           (st : WrapState) (seg : Segment) : WrapState :=
  let '(lines, current_line, current_width) := st in
  let seg_type := type seg in
  let c := content seg in
  let seg_font := seg_font_of font seg_type in
  let '(seg_width, _) := _get_text_size c seg_font in
  if current_width + seg_width <=? max_width then
    (lines, put current_line seg_type c, current_width + seg_width)
  else if is_formatted seg_type && (seg_width <=? max_width) then
    (flush lines current_line, [mkSeg seg_type c], seg_width)
  else
    fold_left (char_step seg_type seg_font max_width) c st.

Definition wrap_init : WrapState := ([], [], 0).

Definition _wrap_formatted_text (segments : list Segment) (font : Font)
           (max_width : Z) : list Line :=
  let '(lines, current_line, _) :=
    fold_left (seg_step font max_width) segments wrap_init in
  let lines := flush lines current_line in
  if truthy lines then lines else [[]].

(** *** [_calculate_element_height] *)

Definition _calculate_element_height (element : Element) (max_width : Z) : Z :=
  match element with
  | E_h1 c =>
      let lines := _wrap_text c font_h1 max_width in
      Z.of_nat (length lines) * Style.h1_line_spacing style
  | E_h2 c =>
      let lines := _wrap_text c font_h2 max_width in
      Z.of_nat (length lines) * Style.h2_line_spacing style
  | E_h3 c =>
      let lines := _wrap_text c font_h3 max_width in
      Z.of_nat (length lines) * Style.h3_line_spacing style
  | E_paragraph c =>
      let segments := _parse_inline_format c in
      let lines := _wrap_formatted_text segments font_body max_width in
      Z.of_nat (length lines) * Style.body_line_spacing style
      + Style.paragraph_spacing style
  | E_code c _ =>
      let lines := split newline c in
      Z.of_nat (length lines) * Style.code_line_spacing style + 40
  | E_quote c =>
      let lines := _wrap_text c font_body (max_width - 40) in
      Z.of_nat (length lines) * Style.body_line_spacing style + 30
  | E_list items =>
      let height :=
        fold_left
          (fun height item =>
             let lines := _wrap_text item font_body (max_width - 40) in
             height + (Z.of_nat (length lines) * Style.body_line_spacing style
                       + 10))
          items 0 in
      height + 10
  | E_ordered_list items =>
      let height :=
        fold_left
          (fun height '(i, item) =>
             let prefix := decimal (i + 1)%nat ++ lit ". " in
             let lines :=
               _wrap_text (prefix ++ item) font_body (max_width - 40) in
             height + (Z.of_nat (length lines) * Style.body_line_spacing style
                       + 10))
          (enumerate items) 0 in
      height + 10
  | E_hr => 40
  | E_other _ => 0
  end.

(** *** [_render_text_line] *)

(** The dict [fonts] built by [_render_element]. *)
Record Fonts := mkFonts { fonts_body : Font; fonts_bold : Font; fonts_code : Font }.

(** [colors.get(seg_type, default)] on a dict keyed by span kind. *)
Fixpoint colors_get (colors : list (SpanType * Color)) (k : SpanType)
         (default : Color) : Color :=
  match colors with
  | [] => default
  | (k', v) :: rest => if type_eqb k' k then v else colors_get rest k default
  end.

(** One iteration of [for seg in segments], on
    [(current_x, max_height, canvas)]. *)
Definition render_seg_step (fonts : Fonts) (colors : list (SpanType * Color))
           (y : Z) (st : Z * Z * list DrawOp) (seg : Segment)
  : Z * Z * list DrawOp :=
  let '(current_x, max_height, ops) := st in
  let seg_type := type seg in
  let c := content seg in
  let font :=
    match seg_type with
    | bold => fonts_bold fonts
    | italic => fonts_body fonts
    | bold_italic => fonts_bold fonts
    | code => fonts_code fonts
    | highlight => fonts_body fonts
    | normal => fonts_body fonts
    end in
  let '(w, h) := _get_text_size c font in
  let ops :=
    if type_eqb seg_type highlight
    then ops ++ [draw_rectangle (current_x - 4) (y - 2) (current_x + w + 4)
                                (y + h + 4) (Style.highlight_bg style) None]
    else ops in
  let ops :=
    if type_eqb seg_type code
    then ops ++ [draw_rectangle (current_x - 4) (y - 2) (current_x + w + 4)
                                (y + h + 4) (Style.code_bg style) None]
    else ops in
  let color := colors_get colors seg_type (Style.text_color style) in
  let ops := ops ++ [draw_text current_x y c font color] in
  (current_x + w, Z.max max_height h, ops).

(** Returns [max_height] and what was drawn. *)
Definition _render_text_line (x y : Z) (segments : list Segment)
           (fonts : Fonts) (colors : list (SpanType * Color))
  : Z * list DrawOp :=
  let '(_, max_height, ops) :=
    fold_left (render_seg_step fonts colors y) segments (x, 0, []) in
  (max_height, ops).

(** *** [_render_element] *)

(** [for line in lines: draw.text((x, y), line, font=font, fill=fill);
    y += spacing] *)
Definition draw_plain_lines (x : Z) (font : Font) (fill : Color) (spacing : Z)
           (lines : list str) (y : Z) : Z * list DrawOp :=
  fold_left
    (fun '(y, ops) line => (y + spacing, ops ++ [draw_text x y line font fill]))
    lines (y, []).

(** [for line_segments in lines:
      self._render_text_line(draw, x, y, line_segments, fonts, colors);
      y += self.style.body_line_spacing] *)
Definition draw_formatted_lines (fonts : Fonts)
           (colors : list (SpanType * Color)) (x : Z)
           (lines : list Line) (y : Z) : Z * list DrawOp :=
  fold_left
    (fun '(y, ops) line_segments =>
       (y + Style.body_line_spacing style,
        ops ++ snd (_render_text_line x y line_segments fonts colors)))
    lines (y, []).

(** [if segments and segments[0]['type'] == 'normal':
       segments[0]['content'] = prefix + segments[0]['content']
     else: segments.insert(0, {'type': 'normal', 'content': prefix})] *)
Definition with_prefix (prefix : str) (segments : list Segment)
  : list Segment :=
  match segments with
  | s0 :: rest =>
      if type_eqb (type s0) normal
      then mkSeg (type s0) (prefix ++ content s0) :: rest
      else mkSeg normal prefix :: segments
  | [] => mkSeg normal prefix :: segments
  end.

(** ["\u2022 "] *)
Definition bullet : str := [8226; 32]%N.

(** One list item of [list] / [ordered_list], on [(y, canvas)]. *)
Definition render_item (fonts : Fonts) (colors : list (SpanType * Color))
           (x max_width : Z) (prefix : str) (st : Z * list DrawOp) (item : str)
  : Z * list DrawOp :=
  let '(y, ops) := st in
  let segments := with_prefix prefix (_parse_inline_format item) in
  let lines := _wrap_formatted_text segments font_body max_width in
  let '(y, ops') := draw_formatted_lines fonts colors x lines y in
  (y + 10, ops ++ ops').

(** Returns the y coordinate after the element and what was drawn. *)
Definition _render_element (element : Element) (x y max_width : Z)
  : Z * list DrawOp :=
  let fonts := mkFonts font_body font_bold font_code in
  let colors :=
    [(normal, Style.text_color style);
     (bold, Style.text_color style);
     (italic, Style.text_color style);
     (code, (200, 50, 80));
     (highlight, Style.highlight_text style)] in
  match element with
  | E_h1 c =>
      let lines := _wrap_text c font_h1 max_width in
      let '(y, ops) :=
        draw_plain_lines x font_h1 (Style.title_color style)
                         (Style.h1_line_spacing style) lines y in
      (y + 20, ops)
  | E_h2 c =>
      let lines := _wrap_text c font_h2 max_width in
      let '(y, ops) :=
        draw_plain_lines x font_h2 (Style.title_color style)
                         (Style.h2_line_spacing style) lines y in
      (y + 15, ops)
  | E_h3 c =>
      let lines := _wrap_text c font_h3 max_width in
      let '(y, ops) :=
        draw_plain_lines x font_h3 (Style.title_color style)
                         (Style.h3_line_spacing style) lines y in
      (y + 10, ops)
  | E_paragraph full_text =>
      let segments := _parse_inline_format full_text in
      let lines := _wrap_formatted_text segments font_body max_width in
      let '(y, ops) := draw_formatted_lines fonts colors x lines y in
      (y + Style.paragraph_spacing style, ops)
  | E_code c _ =>
      let lines := split newline c in
      let block_height :=
        Z.of_nat (length lines) * Style.code_line_spacing style + 30 in
      let background :=
        draw_rectangle x y (x + max_width) (y + block_height)
                       (Style.code_bg style) (Some (Style.border_color style)) in
      let code_y := y + 15 in
      let '(_, ops) :=
        draw_plain_lines (x + 15) font_code (80, 80, 80)
                         (Style.code_line_spacing style) lines code_y in
      (y + block_height + 20, background :: ops)
  | E_quote c =>
      let quote_x := x + 15 in
      let quote_width := max_width - 30 in
      let segments := _parse_inline_format c in
      let lines := _wrap_formatted_text segments font_body (quote_width - 20) in
      let quote_height :=
        Z.of_nat (length lines) * Style.body_line_spacing style + 20 in
      let bar :=
        draw_rectangle x y (x + 6) (y + quote_height) (150, 150, 150) None in
      let quote_y := y + 10 in
      let '(_, ops) := draw_formatted_lines fonts colors quote_x lines quote_y in
      (y + quote_height + 20, bar :: ops)
  | E_list items =>
      let '(y, ops) :=
        fold_left (render_item fonts colors x max_width bullet) items (y, []) in
      (y + 10, ops)
  | E_ordered_list items =>
      let '(y, ops) :=
        fold_left
          (fun st '(i, item) =>
             let prefix := decimal (i + 1)%nat ++ lit ". " in
             render_item fonts colors x max_width prefix st item)
          (enumerate items) (y, []) in
      (y + 10, ops)
  | E_hr =>
      (y + 40,
       [draw_line x (y + 20) (x + max_width) (y + 20)
                  (Style.border_color style) 2])
  | E_other _ => (y, [])
  end.

(** The vertical space rendering an element consumes. *)
Definition rendered_height (element : Element) (x y max_width : Z) : Z :=
  fst (_render_element element x y max_width) - y.

(** *** [render] and [_save_page] *)

(** A call [_save_page(page_elements, output_dir, base_filename, page_num)];
    each call writes one image and yields one output path. *)
Definition Page := (list Element * Z)%type.

(** The paginator's loop state
    [(saved pages, page_num, current_y, page_elements)]. *)
Definition PageState := (list Page * Z * Z * list Element)%type.

(** One iteration of [for element in elements]. *)
Definition render_step (content_width max_content_height : Z)
           (st : PageState) (element : Element) : PageState :=
  let '(saved, page_num, current_y, page_elements) := st in
  let elem_height := _calculate_element_height element content_width in
  if current_y + elem_height >? max_content_height then
    let '(saved, page_num) :=
      if truthy page_elements
      then (saved ++ [(page_elements, page_num)], page_num + 1)
      else (saved, page_num) in
    (saved, page_num, Style.margin_top style + elem_height, [element])
  else
    (saved, page_num, current_y + elem_height, page_elements ++ [element]).

(** The pages handed to [_save_page], in the order of the calls. *)
Definition render (elements : list Element) : list Page :=
  let content_width :=
    Style.width style - Style.margin_left style - Style.margin_right style in
  let safe_bottom_margin := Style.margin_bottom style + 20 in
  let max_content_height := Style.height style - safe_bottom_margin in
  let '(saved, page_num, _, page_elements) :=
    fold_left (render_step content_width max_content_height) elements
              ([], 1, Style.margin_top style, []) in
  if truthy page_elements then saved ++ [(page_elements, page_num)] else saved.

(** The drawing done for one page: the elements one under the other from
    the top margin. *)
Definition _save_page (elements : list Element) : Z * list DrawOp :=
  let x := Style.margin_left style in
  let y := Style.margin_top style in
  let content_width :=
    Style.width style - Style.margin_left style - Style.margin_right style in
  fold_left
    (fun '(y, ops) element =>
       let '(y', ops') := _render_element element x y content_width in
       (y', ops ++ ops'))
    elements (y, []).

End Renderer.

(** ** [MarkdownToImage.convert]: newline preprocessing *)

(** [re.sub(r'([^\n])\n([^\n])', r'\1\n\n\2', md_content)]: the scan
    goes left to right; a match takes three characters and the search
    resumes after them, so matches never overlap. *)
Fixpoint sub_single_newline (md_content : str) : str :=
  match md_content with
  | [] => []
  | a :: tl =>
      match tl with
      | b :: c :: rest =>
          if negb (N.eqb a newline) && N.eqb b newline
             && negb (N.eqb c newline)
          then a :: newline :: newline :: c :: sub_single_newline rest
          else a :: sub_single_newline tl
      | _ => a :: sub_single_newline tl
      end
  end.

(** ** [MarkdownParser.parse] *)

Module Parser.

Local Open Scope nat_scope.

(** [c.isspace()] for one character, which is also what [\s] matches in a
    [str] pattern: the white space of Python's Unicode database. *)
Definition is_space (c : char) : bool :=
  ((9 <=? c) && (c <=? 13) || (28 <=? c) && (c <=? 32)
   || (c =? 133) || (c =? 160) || (c =? 5760)
   || (8192 <=? c) && (c <=? 8202)
   || (c =? 8232) || (c =? 8233) || (c =? 8239) || (c =? 8287)
   || (c =? 12288))%N.

(** [s.lstrip()] *)
Fixpoint lstrip (s : str) : str :=
  match s with
  | [] => []
  | c :: s' => if is_space c then lstrip s' else s
  end.

(** [s.rstrip()] *)
Definition rstrip (s : str) : str := rev (lstrip (rev s)).

(** [s.strip()] *)
Definition strip (s : str) : str := rstrip (lstrip s).

(** [s.startswith(p)] *)
Definition startswith (s : str) (p : string) : bool := is_prefix (lit p) s.

(** [sep.join(l)] *)
Fixpoint join (sep : str) (l : list str) : str :=
  match l with
  | [] => []
  | x :: rest =>
      match rest with
      | [] => x
      | _ :: _ => x ++ sep ++ join sep rest
      end
  end.

(** [(.+)] at the end of a pattern: the longest run of characters other
    than newline, which must not be empty. *)
Fixpoint until_newline (s : str) : str :=
  match s with
  | [] => []
  | c :: s' => if N.eqb c newline then [] else c :: until_newline s'
  end.

Definition dot_plus (s : str) : option str :=
  match until_newline s with
  | [] => None
  | g => Some g
  end.

(** [c] matches [[\*\-\+]]. *)
Definition is_bullet (c : char) : bool :=
  if in_dec char_eq_dec c (lit "*-+") then true else false.

(** [re.match(r'^[\*\-\+]\s', s)] succeeds. *)
Definition bullet_match (s : str) : bool :=
  match s with
  | c :: w :: _ => is_bullet c && is_space w
  | _ => false
  end.

(** [re.match(r'^[\*\-\+]\s(.+)', s)]: [group(1)] of the match, if any. *)
Definition bullet_item (s : str) : option str :=
  match s with
  | c :: w :: rest => if is_bullet c && is_space w then dot_plus rest else None
  | _ => None
  end.

Section Numbered.

(** [\d] in a [str] pattern: the decimal digits of Python's Unicode
    database (category Nd). *)
Variable is_decimal : char -> bool.

(** The length of the longest run of digits [s] starts with. *)
Fixpoint digits_run (s : str) : nat :=
  match s with
  | [] => O
  | c :: s' => if is_decimal c then S (digits_run s') else O
  end.

(** [\d+] is greedy: the rest of the pattern is tried after [k] digits for
    [k] from the longest run down to one digit. *)
Fixpoint backtrack (A : Type) (rest_of_pattern : nat -> option A) (k : nat)
  : option A :=
  match k with
  | O => None
  | S k' =>
      match rest_of_pattern k with
      | Some r => Some r
      | None => backtrack rest_of_pattern k'
      end
  end.

(** [re.match(r'^\d+\.\s', s)] succeeds. *)
Definition number_match (s : str) : bool :=
  match backtrack
          (fun k => match skipn k s with
                    | d :: w :: _ =>
                        if N.eqb d 46 && is_space w then Some tt else None
                    | _ => None
                    end)
          (digits_run s) with
  | Some _ => true
  | None => false
  end.

(** [re.match(r'^\d+\.\s(.+)', s)]: [group(1)] of the match, if any. *)
Definition number_item (s : str) : option str :=
  backtrack
    (fun k => match skipn k s with
              | d :: w :: rest =>
                  if N.eqb d 46 && is_space w then dot_plus rest else None
              | _ => None
              end)
    (digits_run s).

(** [while i < len(lines) and cond(lines[i]): out.append(f(lines[i]));
    i += 1], on the lines from [i] on: what is collected and how many lines
    are taken. *)
Fixpoint collect_while (cond : str -> bool) (f : str -> str) (ls : list str)
  : list str * nat :=
  match ls with
  | [] => ([], O)
  | l :: ls' =>
      if cond l then
        let '(out, k) := collect_while cond f ls' in (f l :: out, S k)
      else ([], O)
  end.

(** [while i < len(lines): match = g(lines[i].strip());
      if match: out.append(match.group(1)); i += 1
      else: break] *)
Fixpoint collect_items (g : str -> option str) (ls : list str)
  : list str * nat :=
  match ls with
  | [] => ([], O)
  | l :: ls' =>
      match g (strip l) with
      | Some item => let '(out, k) := collect_items g ls' in (item :: out, S k)
      | None => ([], O)
      end
  end.

(** One iteration of [while i < len(lines)], on [(i, elements)]. *)
Definition parse_body (lines : list str) (st : nat * list Element)
  : nat * list Element :=
  let '(i, elements) := st in
  match nth_error lines i with
  | None => (i, elements)
  | Some line =>
      let stripped := strip line in
      if negb (truthy stripped) then (i + 1, elements)
      else if startswith stripped "# " then
        (i + 1, elements ++ [E_h1 (skipn 2 stripped)])
      else if startswith stripped "## " then
        (i + 1, elements ++ [E_h2 (skipn 3 stripped)])
      else if startswith stripped "### " then
        (i + 1, elements ++ [E_h3 (skipn 4 stripped)])
      else if startswith stripped "```" then
        let language := strip (skipn 3 stripped) in
        let i := i + 1 in
        let '(code_lines, k) :=
          collect_while (fun l => negb (startswith (strip l) "```"))
                        (fun l => l) (skipn i lines) in
        let i := i + k in
        (i + 1, elements ++ [E_code (join [newline] code_lines) language])
      else if startswith stripped ">" then
        let '(quote_lines, k) :=
          collect_while (fun l => startswith (strip l) ">")
                        (fun l => strip (skipn 1 (strip l)))
                        (skipn i lines) in
        (i + k, elements ++ [E_quote (join [newline] quote_lines)])
      else if bullet_match stripped then
        let '(list_items, k) := collect_items bullet_item (skipn i lines) in
        (i + k, elements ++ [E_list list_items])
      else if number_match stripped then
        let '(list_items, k) := collect_items number_item (skipn i lines) in
        (i + k, elements ++ [E_ordered_list list_items])
      else if str_eqb stripped (lit "---") || str_eqb stripped (lit "***")
              || str_eqb stripped (lit "___") then
        (i + 1, elements ++ [E_hr])
      else
        let '(paragraph_lines, k) :=
          collect_while (fun l => truthy (strip l)) (fun l => l)
                        (skipn i lines) in
        (i + k,
         if truthy paragraph_lines
         then elements ++ [E_paragraph (join (lit " ") paragraph_lines)]
         else elements)
  end.

(** [while i < len(lines): ...] with [fuel] bounding the iterations; every
    iteration takes at least one line, so [len(lines)] iterations are
    enough. *)
Fixpoint parse_loop (fuel : nat) (lines : list str)
         (st : nat * list Element) : nat * list Element :=
  match fuel with
  | O => st
  | S fuel' =>
      if (fst st <? length lines)%nat
      then parse_loop fuel' lines (parse_body lines st)
      else st
  end.

Definition parse_lines (lines : list str) : list Element :=
  snd (parse_loop (length lines) lines (O, [])).

Definition parse (md_content : str) : list Element :=
  parse_lines (split newline md_content).

End Numbered.

End Parser.

(** ** [MarkdownToImage.convert] *)

(** The part of [MarkdownToImage.convert] between reading the file and
    writing the images: preprocess, parse, paginate. *)
Definition convert_pages (style : Style.StyleConfig)
           (getbbox : Font -> str -> Z * Z * Z * Z)
           (is_decimal : char -> bool) (md_content : str) : list Page :=
  let md_content := sub_single_newline md_content in
  let elements := Parser.parse is_decimal md_content in
  render style getbbox elements.

(** * Vocabulary of the properties *)

(** ** Two concrete font metrics *)

(** A monospaced font: every character is 10 wide and 10 high. *)
Definition mono_bbox (f : Font) (s : str) : Z * Z * Z * Z :=
  (0, 0, 10 * len s, 10).

(** A font whose box hugs the ink: one pixel of side bearing is left out on
    each side of the text, so the width of a string is more than the sum of
    the widths of its characters. *)
Definition ink_bbox (f : Font) (s : str) : Z * Z * Z * Z :=
  match s with
  | [] => (0, 0, 0, 0)
  | _ :: _ => (1, 0, 10 * len s - 1, 10)
  end.

(** ** Line wrapper *)

(** All the text a wrapper state holds, sealed lines first. *)
Definition state_text (st : WrapState) : str :=
  let '(lines, cur, _) := st in text_of (concat lines ++ cur).

(** The measured width of a span as the wrapper takes it. *)
Definition seg_width_of (getbbox : Font -> str -> Z * Z * Z * Z)
           (font : Font) (seg : Segment) : Z :=
  fst (_get_text_size getbbox (content seg) (seg_font_of font (type seg))).

(** C4 as it is stated, for one span of whatever kind: [seg], met after
    [pre] has been laid out, with a non-empty current line on which it does
    not fit although it fits on an empty line, seals that line and becomes,
    unsplit, the content of the new current line. *)
Definition moved_whole (getbbox : Font -> str -> Z * Z * Z * Z)
           (font : Font) (max_width : Z) (pre : list Segment)
           (seg : Segment) : Prop :=
  forall lines cur cw,
    fold_left (seg_step getbbox font max_width) pre wrap_init
    = (lines, cur, cw) ->
    cur <> [] ->
    cw + seg_width_of getbbox font seg > max_width ->
    seg_width_of getbbox font seg <= max_width ->
    fold_left (seg_step getbbox font max_width) (pre ++ [seg]) wrap_init
    = (lines ++ [cur], [seg], seg_width_of getbbox font seg).

(** The measured width of a text in a font. *)
Definition text_width (getbbox : Font -> str -> Z * Z * Z * Z)
           (font : Font) (s : str) : Z :=
  fst (_get_text_size getbbox s font).

(** The metric is additive: a text is as wide as its parts together. *)
Definition additive (getbbox : Font -> str -> Z * Z * Z * Z) : Prop :=
  forall font a b,
    text_width getbbox font (a ++ b)
    = text_width getbbox font a + text_width getbbox font b.

(** The sum of the measured widths of the spans of a line, each span in the
    font the wrapper measures its kind with. *)
Definition line_width (getbbox : Font -> str -> Z * Z * Z * Z)
           (font : Font) (line : Line) : Z :=
  fold_right (fun seg acc => seg_width_of getbbox font seg + acc) 0 line.

(** The line is one span of one character, wider than [max_width]. *)
Definition single_char_overflow (getbbox : Font -> str -> Z * Z * Z * Z)
           (font : Font) (max_width : Z) (line : Line) : bool :=
  match line with
  | [seg] =>
      match content seg with
      | [_] => max_width <? seg_width_of getbbox font seg
      | _ => false
      end
  | _ => false
  end.

Definition within_width (getbbox : Font -> str -> Z * Z * Z * Z)
           (font : Font) (max_width : Z) (line : Line) : bool :=
  (line_width getbbox font line <=? max_width)
  || single_char_overflow getbbox font max_width line.

(** C6 as it is stated, for one input: every line the wrapper returns is
    within [max_width] or is a single over-wide character. *)
Definition width_bound (getbbox : Font -> str -> Z * Z * Z * Z)
           (font : Font) (max_width : Z) (segments : list Segment) : bool :=
  forallb (within_width getbbox font max_width)
          (_wrap_formatted_text getbbox segments font max_width).

(** What the wrapper maintains: sealed lines are within the bound or a
    single over-wide character, and so is the current line, whose width
    [current_width] tracks exactly. *)
Definition wrap_inv (getbbox : Font -> str -> Z * Z * Z * Z)
           (font : Font) (max_width : Z) (st : WrapState) : Prop :=
  let '(lines, cur, cw) := st in
  forallb (within_width getbbox font max_width) lines = true
  /\ cw = line_width getbbox font cur
  /\ within_width getbbox font max_width cur = true.

(** ** Paginator *)

(** The blocks a paginator state holds, in page order. *)
Definition state_blocks (st : PageState) : list Element :=
  let '(saved, _, _, page_elements) := st in
  concat (List.map fst saved) ++ page_elements.

(** ** Tokenizer *)

(** Some two consecutive spans have the same kind. *)
Fixpoint has_adjacent_same_kind (l : list Segment) : bool :=
  match l with
  | [] => false
  | a :: tl =>
      match tl with
      | b :: _ => type_eqb (type a) (type b)
      | [] => false
      end || has_adjacent_same_kind tl
  end.

(** Some two consecutive spans are both normal. *)
Fixpoint has_adjacent_normal (l : list Segment) : bool :=
  match l with
  | [] => false
  | a :: tl =>
      match tl with
      | b :: _ => type_eqb (type a) normal && type_eqb (type b) normal
      | [] => false
      end || has_adjacent_normal tl
  end.

(** [l[-1]] is a normal span. *)
Definition ends_normal (l : list Segment) : bool :=
  match last_item l with
  | Some y => type_eqb (type y) normal
  | None => false
  end.

(** What a successful match guarantees about the position it returns. *)
Definition advances (text : str) (i : nat) (m : option Match) : Prop :=
  match m with
  | Some (_, _, i') => (i < i' <= length text)%nat
  | None => True
  end.

(** A match found in the text that follows a prefix of length [p], seen
    from the whole text. *)
Definition shift (p : nat) (m : Match) : Match :=
  let '(ty, c, e) := m in (ty, c, (p + e)%nat).

(** The outcomes of the successive iterations of the scanning loop from
    position [i]: [Some m] where a delimiter pair was matched, [None] where
    plain text was taken. *)
Fixpoint trace_loop (fuel : nat) (text : str) (n i : nat)
  : list (option Match) :=
  match fuel with
  | O => []
  | S fuel' =>
      if (i <? n)%nat then
        match match_at text i n with
        | Some (ty, c, i') => Some (ty, c, i') :: trace_loop fuel' text n i'
        | None => None :: trace_loop fuel' text n (next_special text i n)
        end
      else []
  end.

Definition scan_trace (text : str) : list (option Match) :=
  trace_loop (length text) text (length text) 0.

(** Every delimiter pair the scan matched encloses empty content. *)
Definition every_pair_empty (text : str) : bool :=
  forallb (fun ev : option Match =>
             match ev with
             | Some (_, c, _) => negb (truthy c)
             | None => true
             end)
          (scan_trace text).

(** The scan met nothing but delimiter pairs that enclose empty content. *)
Definition only_empty_pairs (text : str) : bool :=
  forallb (fun ev : option Match =>
             match ev with
             | Some (_, c, _) => negb (truthy c)
             | None => false
             end)
          (scan_trace text).

(** The seven delimiters of the tokenizer. *)
Inductive Delim :=
| d_bold_italic | d_bold_star | d_italic_star | d_code
| d_highlight | d_bold_under | d_italic_under.

Definition marker (d : Delim) : str :=
  match d with
  | d_bold_italic => lit "***"
  | d_bold_star => lit "**"
  | d_italic_star => lit "*"
  | d_code => lit "`"
  | d_highlight => lit "=="
  | d_bold_under => lit "__"
  | d_italic_under => lit "_"
  end.

Definition kind_of (d : Delim) : SpanType :=
  match d with
  | d_bold_italic => bold_italic
  | d_bold_star => bold
  | d_italic_star => italic
  | d_code => code
  | d_highlight => highlight
  | d_bold_under => bold
  | d_italic_under => italic
  end.

(** Text without any of the characters [*], [`], [_], [=]. *)
Definition plain (s : str) : Prop := Forall (fun c => is_special c = false) s.

(** The closing marker of an italic pair is not directly followed by one
    more [*] (for [*...*]) or [_] (for [_..._]). *)
Definition closes_cleanly (d : Delim) (t : str) : Prop :=
  match d with
  | d_italic_star => hd_error t <> Some 42%N
  | d_italic_under => hd_error t <> Some 95%N
  | _ => True
  end.

Section Marked.

(** What is asked of a delimiter pair: of the delimiter, of the content it
    encloses and of the text that follows the closing marker. *)
Variable admissible : Delim -> str -> str -> Prop.

(** [marked text stripped]: [text] is a sequence of plain characters and of
    delimiter pairs that enclose plain content, and [stripped] is [text]
    with the markers of these pairs removed. *)
Inductive marked : str -> str -> Prop :=
| marked_nil : marked [] []
| marked_plain (c : char) (t s : str) :
    is_special c = false -> marked t s -> marked (c :: t) (c :: s)
| marked_pair (d : Delim) (body t s : str) :
    plain body -> admissible d body t -> marked t s ->
    marked (marker d ++ body ++ marker d ++ t) (body ++ s).

End Marked.

(** Text with balanced delimiters, and the same text with the markers
    removed. *)
Definition balanced : str -> str -> Prop := marked (fun _ _ _ => True).

(** Balanced text in which every pair encloses something and every italic
    pair closes cleanly. *)
Definition well_separated : str -> str -> Prop :=
  marked (fun d body t => body <> [] /\ closes_cleanly d t).

(** The shape shared by the matchers of [***], [**], [==] and [__]. *)
Definition match_pair (m : str) (ty : SpanType) (text : str) (i n : nat)
  : option Match :=
  if (i + 2 * length m <=? n)%nat
     && str_eqb (slice text i (i + length m)) m then
    match find text m (i + length m) with
    | Some end_ =>
        Some (ty, slice text (i + length m) end_, end_ + length m)%nat
    | None => None
    end
  else None.

(** The first character of a marker is special. *)
Definition special_head (m : str) : Prop :=
  match m with
  | h :: _ => is_special h = true
  | [] => False
  end.

(** ** Sample inputs *)

(** ["a\nb\nc"] *)
Definition three_short_lines : str :=
  lit "a" ++ [newline] ++ lit "b" ++ [newline] ++ lit "c".

(** Fifty lines ["x"] joined by newlines. *)
Definition fifty_lines : str :=
  concat (repeat (lit "x" ++ [newline]) 49) ++ lit "x".

(** ** Plain wrapping *)

(** A line of [_wrap_text] is acceptable: it is not empty, and it is a single
    character or measures at most [max_width]. *)
Definition plain_line_ok (getbbox : Font -> str -> Z * Z * Z * Z)
           (font : Font) (max_width : Z) (line : str) : Prop :=
  line <> [] /\ (length line = 1%nat \/ text_width getbbox font line <= max_width).

(** What [_wrap_text] maintains on [(lines, current_line)] after the
    characters [seen]. *)
Definition wrap_text_inv (getbbox : Font -> str -> Z * Z * Z * Z)
           (font : Font) (max_width : Z) (seen : str)
           (st : list str * str) : Prop :=
  let '(lines, cur) := st in
  concat lines ++ cur = seen
  /\ Forall (plain_line_ok getbbox font max_width) lines
  /\ (cur = [] -> seen = [])
  /\ (cur <> [] -> plain_line_ok getbbox font max_width cur).

(** ** Shape of wrapped lines *)

(** [l[-1]] has kind [ty]. *)
Definition ends_with_kind (l : list Segment) (ty : SpanType) : bool :=
  match last_item l with
  | Some y => type_eqb (type y) ty
  | None => false
  end.

(** What the wrapper maintains about the shape of its lines: sealed lines
    are not empty, and no line, sealed or current, holds two neighbouring
    spans of one kind. *)
Definition wrap_shape_inv (st : WrapState) : Prop :=
  let '(lines, cur, _) := st in
  Forall (fun l : Line => l <> [] /\ has_adjacent_same_kind l = false) lines
  /\ has_adjacent_same_kind cur = false.

(** ** Plain characters *)

(** The characters of a text other than [*], [`], [_], [=], in order. *)
Definition plain_chars (s : str) : str :=
  filter (fun c => negb (is_special c)) s.

(** ** Pages *)

(** [self.style.width - self.style.margin_left - self.style.margin_right] *)
Definition content_width_of (style : Style.StyleConfig) : Z :=
  Style.width style - Style.margin_left style - Style.margin_right style.

(** [self.style.height - (self.style.margin_bottom + 20)] *)
Definition max_content_height_of (style : Style.StyleConfig) : Z :=
  Style.height style - (Style.margin_bottom style + 20).

(** The estimated heights of the blocks of a page, added up. *)
Definition estimated_total (style : Style.StyleConfig)
           (getbbox : Font -> str -> Z * Z * Z * Z)
           (blocks : list Element) : Z :=
  fold_right
    (fun e acc =>
       _calculate_element_height style getbbox e (content_width_of style) + acc)
    0 blocks.

(** The page holds one block, or its blocks are estimated to end at or
    above the usable height. *)
Definition page_fits (style : Style.StyleConfig)
           (getbbox : Font -> str -> Z * Z * Z * Z)
           (blocks : list Element) : Prop :=
  length blocks = 1%nat
  \/ Style.margin_top style + estimated_total style getbbox blocks
     <= max_content_height_of style.

(** Page numbers [1, 2, ..., k]. *)
Definition page_numbers (k : nat) : list Z := List.map Z.of_nat (seq 1 k).

(** What the paginator maintains on
    [(saved, page_num, current_y, page_elements)]. *)
Definition page_inv (style : Style.StyleConfig)
           (getbbox : Font -> str -> Z * Z * Z * Z) (st : PageState) : Prop :=
  let '(saved, page_num, current_y, page_elements) := st in
  Forall (fun p : Page => fst p <> [] /\ page_fits style getbbox (fst p)) saved
  /\ List.map snd saved = page_numbers (length saved)
  /\ page_num = Z.of_nat (length saved) + 1
  /\ current_y
     = Style.margin_top style + estimated_total style getbbox page_elements
  /\ (page_elements = [] \/ page_fits style getbbox page_elements).

(** ** Drawing *)

(** The texts handed to [draw.text], one after the other. *)
Definition drawn_text (ops : list DrawOp) : str :=
  concat (List.map (fun op => match op with
                              | draw_text _ _ s _ _ => s
                              | _ => []
                              end) ops).

(** The text a block is expected to show: its content without inline
    markers, its code lines, or its items behind their bullet or number. *)
Definition element_text (element : Element) : str :=
  match element with
  | E_h1 c | E_h2 c | E_h3 c => c
  | E_paragraph c | E_quote c => text_of (_parse_inline_format c)
  | E_code c _ => concat (split newline c)
  | E_list items =>
      concat (List.map
                (fun item => bullet ++ text_of (_parse_inline_format item))
                items)
  | E_ordered_list items =>
      concat (List.map
                (fun '(i, item) =>
                   (decimal (i + 1)%nat ++ lit ". ")
                   ++ text_of (_parse_inline_format item))
                (enumerate items))
  | E_hr | E_other _ => []
  end.


(** The rendered heights of the blocks of a page, added up. *)
Definition rendered_total (style : Style.StyleConfig)
           (getbbox : Font -> str -> Z * Z * Z * Z)
           (blocks : list Element) : Z :=
  fold_right
    (fun e acc =>
       rendered_height style getbbox e 0 0 (content_width_of style) + acc)
    0 blocks.


(** ** Lines and spacings *)

(** [with_empty_lines_added xs ys]: the lines [ys] are the lines [xs], all
    of them and in their order, with empty lines put in between: every line
    of [xs] is kept, and a line of [ys] that is not one of [xs] is empty. *)
Inductive with_empty_lines_added : list str -> list str -> Prop :=
| added_done : with_empty_lines_added [] []
| added_keep (l : str) (xs ys : list str) :
    with_empty_lines_added xs ys ->
    with_empty_lines_added (l :: xs) (l :: ys)
| added_empty (xs ys : list str) :
    with_empty_lines_added xs ys ->
    with_empty_lines_added xs ([] :: ys).

(** No line spacing and no paragraph gap of the style is negative. *)
Definition spacings_nonneg (style : Style.StyleConfig) : Prop :=
  0 <= Style.h1_line_spacing style
  /\ 0 <= Style.h2_line_spacing style
  /\ 0 <= Style.h3_line_spacing style
  /\ 0 <= Style.body_line_spacing style
  /\ 0 <= Style.code_line_spacing style
  /\ 0 <= Style.paragraph_spacing style.

(** ** Parsed blocks *)

(** No character of the line is a newline. *)
Definition one_line (l : str) : Prop := ~ In newline l.

(** What [parse] guarantees of a block it returns. *)
Definition parsed_block_ok (element : Element) : Prop :=
  match element with
  | E_h1 c | E_h2 c | E_h3 c | E_paragraph c => c <> []
  | E_list items | E_ordered_list items =>
      items <> [] /\ Forall (fun item : str => item <> []) items
  | E_code _ _ | E_quote _ | E_hr => True
  | E_other _ => False
  end.

(** What is known of a stripped line of the document. *)
Definition stripped_line (stripped : str) : Prop :=
  one_line stripped
  /\ forall l x, stripped = l ++ [x] -> Parser.is_space x = false.

(** [\d] restricted to the ASCII digits, for examples. *)
Definition ascii_digit (c : char) : bool := ((48 <=? c) && (c <=? 57))%N.

(** * Properties *)

(** ** Lists and segments *)

Lemma last_item_snoc (A : Type) (l : list A) (x : A) :
  last_item (l ++ [x]) = Some x.
Proof. unfold last_item. rewrite rev_app_distr. reflexivity. Qed.

Lemma snoc_case (A : Type) (l : list A) :
  l = [] \/ exists l' x, l = l' ++ [x].
Proof.
  destruct (rev l) as [|x r] eqn:E.
  - left. apply (f_equal (@rev A)) in E. rewrite rev_involutive in E. exact E.
  - right. exists (rev r), x.
    apply (f_equal (@rev A)) in E. rewrite rev_involutive in E. exact E.
Qed.

Lemma truthy_false (A : Type) (l : list A) : truthy l = false -> l = [].
Proof. destruct l; [reflexivity | discriminate]. Qed.

Lemma type_eqb_eq (a b : SpanType) : type_eqb a b = true <-> a = b.
Proof. unfold type_eqb. destruct (SpanType_eq_dec a b); intuition congruence. Qed.

Lemma text_of_app (a b : list Segment) :
  text_of (a ++ b) = text_of a ++ text_of b.
Proof. unfold text_of. rewrite map_app, concat_app. reflexivity. Qed.

Lemma text_of_one (ty : SpanType) (c : str) : text_of [mkSeg ty c] = c.
Proof. unfold text_of. simpl. apply app_nil_r. Qed.

(** ** The line wrapper *)

Section Wrapper.

Variable getbbox : Font -> str -> Z * Z * Z * Z.

Lemma put_text (line : Line) (ty : SpanType) (c : str) :
  text_of (put line ty c) = text_of line ++ c.
Proof.
  unfold put. destruct (snoc_case line) as [-> | (l' & x & ->)].
  - simpl. apply text_of_one.
  - rewrite last_item_snoc. destruct (type_eqb (type x) ty).
    + rewrite removelast_last, !text_of_app, !text_of_one, app_assoc.
      destruct x as [tx cx]. rewrite text_of_one. reflexivity.
    + rewrite !text_of_app, !text_of_one. reflexivity.
Qed.

Lemma flush_concat (lines : list Line) (cur : Line) :
  concat (flush lines cur) = concat lines ++ cur.
Proof.
  unfold flush. destruct cur as [|s cur]; simpl.
  - symmetry. apply app_nil_r.
  - rewrite concat_app. simpl. rewrite app_nil_r. reflexivity.
Qed.

Lemma char_step_text ty f w (st : WrapState) (c : char) :
  state_text (char_step getbbox ty f w st c) = state_text st ++ [c].
Proof.
  destruct st as [[lines cur] cw]. unfold char_step.
  destruct (_get_text_size getbbox [c] f) as [char_width h].
  destruct (cw + char_width <=? w); unfold state_text.
  - rewrite !text_of_app, put_text. apply app_assoc.
  - rewrite flush_concat, text_of_app, text_of_one. reflexivity.
Qed.

Lemma char_loop_text ty f w (cs : str) (st : WrapState) :
  state_text (fold_left (char_step getbbox ty f w) cs st) = state_text st ++ cs.
Proof.
  revert st. induction cs as [|c cs IH]; intros st; simpl.
  - symmetry. apply app_nil_r.
  - rewrite IH, char_step_text, <- app_assoc. reflexivity.
Qed.

Lemma seg_step_text font w (st : WrapState) (seg : Segment) :
  state_text (seg_step getbbox font w st seg) = state_text st ++ content seg.
Proof.
  destruct st as [[lines cur] cw]. unfold seg_step.
  destruct (_get_text_size getbbox (content seg) _) as [seg_width h].
  destruct (cw + seg_width <=? w).
  - unfold state_text. rewrite !text_of_app, put_text. apply app_assoc.
  - destruct (is_formatted (type seg) && (seg_width <=? w)).
    + unfold state_text.
      rewrite flush_concat, text_of_app, text_of_one. reflexivity.
    + apply char_loop_text.
Qed.

Lemma seg_loop_text font w (segs : list Segment) (st : WrapState) :
  state_text (fold_left (seg_step getbbox font w) segs st)
  = state_text st ++ text_of segs.
Proof.
  revert st. induction segs as [|s segs IH]; intros st; simpl.
  - symmetry. apply app_nil_r.
  - rewrite IH, seg_step_text, <- app_assoc. reflexivity.
Qed.

(** C5. Wrapper conservation: the texts of all spans of all lines the
    wrapper returns, concatenated in order, are exactly the concatenation of
    the texts of the input spans, for every span sequence, font metric and
    width. *)
Theorem wrap_conservation (segments : list Segment) (font : Font)
        (max_width : Z) :
  text_of (concat (_wrap_formatted_text getbbox segments font max_width))
  = text_of segments.
Proof.
  unfold _wrap_formatted_text.
  pose proof (seg_loop_text font max_width segments wrap_init) as H.
  destruct (fold_left _ segments wrap_init) as [[lines cur] cw].
  simpl in H.
  assert (E : text_of (concat (flush lines cur)) = text_of segments)
    by (rewrite flush_concat; exact H).
  destruct (flush lines cur) as [|l ls]; [exact E | exact E].
Qed.

End Wrapper.

(** *** The whole-span rule *)

Section WholeSpan.

Variable getbbox : Font -> str -> Z * Z * Z * Z.

(** C4, amended. A span of a formatted kind (bold, italic, bold_italic,
    highlight, code) that does not fit on the current non-empty line but is
    at most [max_width] wide is placed whole at the start of the next line,
    the current line being flushed; this holds for every font metric and
    width. *)
Theorem formatted_span_moved_whole (font : Font) (max_width : Z)
        (pre : list Segment) (seg : Segment)
        (lines : list Line) (cur : Line) (cw : Z) :
  is_formatted (type seg) = true ->
  fold_left (seg_step getbbox font max_width) pre wrap_init
  = (lines, cur, cw) ->
  cur <> [] ->
  cw + seg_width_of getbbox font seg > max_width ->
  seg_width_of getbbox font seg <= max_width ->
  fold_left (seg_step getbbox font max_width) (pre ++ [seg]) wrap_init
  = (lines ++ [cur], [seg], seg_width_of getbbox font seg).
Proof.
  intros Hfmt Hpre Hcur Hover Hfit.
  rewrite fold_left_app, Hpre. simpl.
  unfold seg_width_of in *. unfold seg_step.
  destruct (_get_text_size getbbox (content seg) _) as [seg_width h].
  simpl in Hover, Hfit |- *.
  destruct (Z.leb_spec (cw + seg_width) max_width) as [Hle | _]; [lia |].
  rewrite Hfmt. simpl.
  destruct (Z.leb_spec seg_width max_width) as [_ | Hgt]; [| lia].
  unfold flush. destruct cur as [|s cur]; [congruence |].
  destruct seg; reflexivity.
Qed.

End WholeSpan.

(** An italic span after a bold one, in a monospaced font, 30 wide. *)
Lemma formatted_span_moved_whole_witness :
  fold_left (seg_step mono_bbox font_body 30)
            ([mkSeg bold (lit "ab")] ++ [mkSeg italic (lit "cd")]) wrap_init
  = ([] ++ [[mkSeg bold (lit "ab")]], [mkSeg italic (lit "cd")], 20).
Proof.
  refine (@formatted_span_moved_whole mono_bbox font_body 30
            [mkSeg bold (lit "ab")] (mkSeg italic (lit "cd"))
            [] [mkSeg bold (lit "ab")] 20 _ _ _ _ _).
  - reflexivity.
  - reflexivity.
  - discriminate.
  - vm_compute. reflexivity.
  - vm_compute. discriminate.
Defined.

(** C4 as stated fails for a normal span: after [bold "ab"] (20 of 30
    used), [normal "cd"] (20 wide) does not fit on the line but fits on an
    empty one, and is split: ["c"] stays on the current line. *)
Lemma normal_span_is_split :
  fold_left (seg_step mono_bbox font_body 30)
            ([mkSeg bold (lit "ab")] ++ [mkSeg normal (lit "cd")]) wrap_init
  = ([[mkSeg bold (lit "ab"); mkSeg normal (lit "c")]],
     [mkSeg normal (lit "d")], 10)
  /\ ~ moved_whole mono_bbox font_body 30
        [mkSeg bold (lit "ab")] (mkSeg normal (lit "cd")).
Proof.
  assert (E : fold_left (seg_step mono_bbox font_body 30)
                ([mkSeg bold (lit "ab")] ++ [mkSeg normal (lit "cd")]) wrap_init
              = ([[mkSeg bold (lit "ab"); mkSeg normal (lit "c")]],
                 [mkSeg normal (lit "d")], 10)) by (vm_compute; reflexivity).
  split; [exact E |].
  intros H.
  specialize (H [] [mkSeg bold (lit "ab")] 20 eq_refl).
  rewrite E in H.
  assert (G : ([[mkSeg bold (lit "ab"); mkSeg normal (lit "c")]],
               [mkSeg normal (lit "d")], 10)
              = ([] ++ [[mkSeg bold (lit "ab")]],
                 [mkSeg normal (lit "cd")],
                 seg_width_of mono_bbox font_body (mkSeg normal (lit "cd")))).
  { apply H.
    - discriminate.
    - vm_compute. reflexivity.
    - vm_compute. discriminate. }
  discriminate G.
Qed.

(** ** The paginator *)

Section Paginator.

Variable style : Style.StyleConfig.
Variable getbbox : Font -> str -> Z * Z * Z * Z.

Lemma render_step_blocks cw mh (st : PageState) (e : Element) :
  state_blocks (render_step style getbbox cw mh st e) = state_blocks st ++ [e].
Proof.
  destruct st as [[[saved page_num] current_y] page_elements].
  unfold render_step.
  destruct (current_y + _ >? mh).
  - destruct page_elements as [|p ps]; simpl.
    + rewrite app_nil_r. reflexivity.
    + rewrite map_app, concat_app. simpl. rewrite app_nil_r. reflexivity.
  - simpl. apply app_assoc.
Qed.

Lemma render_loop_blocks cw mh (elements : list Element) (st : PageState) :
  state_blocks (fold_left (render_step style getbbox cw mh) elements st)
  = state_blocks st ++ elements.
Proof.
  revert st. induction elements as [|e es IH]; intros st; simpl.
  - symmetry. apply app_nil_r.
  - rewrite IH, render_step_blocks, <- app_assoc. reflexivity.
Qed.

(** C9. Pagination monotonicity: the pages, read one after the other, are
    the input sequence itself.  So blocks keep their relative order within
    and across pages, and each block of the input is on exactly one page. *)
Theorem pages_partition_input (elements : list Element) :
  concat (List.map fst (render style getbbox elements)) = elements.
Proof.
  unfold render.
  pose proof (render_loop_blocks
                (Style.width style - Style.margin_left style
                 - Style.margin_right style)
                (Style.height style - (Style.margin_bottom style + 20))
                elements ([], 1, Style.margin_top style, [])) as H.
  destruct (fold_left _ elements _) as [[[saved page_num] current_y] pe].
  simpl in H. destruct pe as [|p ps]; simpl.
  - rewrite app_nil_r in H. exact H.
  - rewrite map_app, concat_app. simpl. rewrite app_nil_r. exact H.
Qed.

End Paginator.

(** ** The tokenizer's merging pass *)

(** The scenario of the specification. *)
Example tokenize_hello_world :
  _parse_inline_format (lit "Hello **world**")
  = [mkSeg normal (lit "Hello "); mkSeg bold (lit "world")].
Proof. vm_compute. reflexivity. Qed.

Lemma last_item_cons (A : Type) (a b : A) (l : list A) :
  last_item (a :: b :: l) = last_item (b :: l).
Proof.
  destruct (snoc_case (b :: l)) as [E | (l' & x & E)]; [discriminate |].
  rewrite E. change (a :: l' ++ [x]) with ((a :: l') ++ [x]).
  rewrite !last_item_snoc. reflexivity.
Qed.

Lemma has_adjacent_normal_snoc (l : list Segment) (x : Segment) :
  has_adjacent_normal (l ++ [x])
  = has_adjacent_normal l || (ends_normal l && type_eqb (type x) normal).
Proof.
  induction l as [|a l IH].
  - reflexivity.
  - destruct l as [|b l].
    + simpl. unfold ends_normal. simpl.
      destruct (type_eqb (type a) normal), (type_eqb (type x) normal);
        reflexivity.
    + change (has_adjacent_normal ((a :: b :: l) ++ [x]))
        with (type_eqb (type a) normal && type_eqb (type b) normal
              || has_adjacent_normal ((b :: l) ++ [x])).
      rewrite IH.
      change (has_adjacent_normal (a :: b :: l))
        with (type_eqb (type a) normal && type_eqb (type b) normal
              || has_adjacent_normal (b :: l)).
      unfold ends_normal. rewrite last_item_cons.
      apply orb_assoc.
Qed.

Lemma merge_step_no_adjacent_normal (merged : list Segment) (seg : Segment) :
  has_adjacent_normal merged = false ->
  has_adjacent_normal (merge_step merged seg) = false.
Proof.
  intros H. unfold merge_step.
  destruct (truthy (content seg)); [| exact H].
  destruct (snoc_case merged) as [-> | (l' & y & ->)]; [reflexivity |].
  rewrite last_item_snoc.
  rewrite has_adjacent_normal_snoc in H.
  apply orb_false_iff in H. destruct H as [Hl' Hy].
  destruct (type_eqb (type seg) normal && type_eqb (type y) normal) eqn:E.
  - apply andb_true_iff in E. destruct E as [_ Ey].
    rewrite Ey, andb_true_r in Hy.
    rewrite removelast_last, has_adjacent_normal_snoc, Hl', Hy. reflexivity.
  - rewrite !has_adjacent_normal_snoc, Hl', Hy. simpl.
    unfold ends_normal. rewrite last_item_snoc, andb_comm. exact E.
Qed.

Lemma merge_loop_no_adjacent_normal (segments merged : list Segment) :
  has_adjacent_normal merged = false ->
  has_adjacent_normal (fold_left merge_step segments merged) = false.
Proof.
  revert merged. induction segments as [|s segments IH]; intros merged H.
  - exact H.
  - simpl. apply IH, merge_step_no_adjacent_normal, H.
Qed.

(** C8, amended. The tokenizer never returns two consecutive normal spans:
    the merging pass joins adjacent normal spans into one. *)
Theorem no_adjacent_normal_spans (text : str) :
  has_adjacent_normal (_parse_inline_format text) = false.
Proof.
  unfold _parse_inline_format, merge.
  pose proof (merge_loop_no_adjacent_normal (scan text) [] eq_refl) as H.
  destruct (fold_left merge_step (scan text) []); [reflexivity | exact H].
Qed.

(** C8 as stated fails: two code runs side by side stay two code spans. *)
Lemma adjacent_code_spans_not_merged :
  _parse_inline_format (lit "`a``b`")
  = [mkSeg code (lit "a"); mkSeg code (lit "b")]
  /\ has_adjacent_same_kind (_parse_inline_format (lit "`a``b`")) = true.
Proof. split; vm_compute; reflexivity. Qed.

(** ** Newline preprocessing *)

(** C3. On ["a\nb\nc"] the substitution doubles the first newline only: the
    match at ["a\nb"] consumes ["b"], so the newline after it is no longer
    preceded by an unconsumed character and stays single.  The claim asks
    for ["a\n\nb\n\nc"]. *)
Theorem sub_single_newline_skips_after_one_char_line :
  sub_single_newline three_short_lines
  = lit "a" ++ [newline; newline] ++ lit "b" ++ [newline] ++ lit "c"
  /\ sub_single_newline three_short_lines
     <> lit "a" ++ [newline; newline] ++ lit "b" ++ [newline; newline]
        ++ lit "c".
Proof. split; [vm_compute; reflexivity | vm_compute; discriminate]. Qed.

(** Lines of two characters or more are handled as the claim says. *)
Example sub_single_newline_longer_lines :
  sub_single_newline (lit "ab" ++ [newline] ++ lit "cd" ++ [newline] ++ lit "ef")
  = lit "ab" ++ [newline; newline] ++ lit "cd" ++ [newline; newline]
    ++ lit "ef".
Proof. vm_compute. reflexivity. Qed.

(** ** Estimated height against rendered height *)

Section EstimateVsRender.

Variable style : Style.StyleConfig.
Variable getbbox : Font -> str -> Z * Z * Z * Z.

Lemma draw_plain_lines_y x font fill spacing (lines : list str) (y : Z) :
  fst (draw_plain_lines x font fill spacing lines y)
  = y + Z.of_nat (length lines) * spacing.
Proof.
  unfold draw_plain_lines.
  assert (G : forall ops,
             fst (fold_left
                    (fun '(y, ops) line =>
                       (y + spacing, ops ++ [draw_text x y line font fill]))
                    lines (y, ops))
             = y + Z.of_nat (length lines) * spacing).
  { revert y. induction lines as [|l lines IH]; intros y ops.
    - simpl. lia.
    - cbn [fold_left]. rewrite IH. cbn [length]. lia. }
  apply G.
Qed.

Lemma draw_formatted_lines_y fonts colors x (lines : list Line) (y : Z) :
  fst (draw_formatted_lines style getbbox fonts colors x lines y)
  = y + Z.of_nat (length lines) * Style.body_line_spacing style.
Proof.
  unfold draw_formatted_lines.
  assert (G : forall ops,
             fst (fold_left
                    (fun '(y, ops) line_segments =>
                       (y + Style.body_line_spacing style,
                        ops ++ snd (_render_text_line style getbbox x y
                                      line_segments fonts colors)))
                    lines (y, ops))
             = y + Z.of_nat (length lines) * Style.body_line_spacing style).
  { revert y. induction lines as [|l lines IH]; intros y ops.
    - simpl. lia.
    - cbn [fold_left]. rewrite IH. cbn [length]. lia. }
  apply G.
Qed.



(** Level-1 headings: rendering adds a trailing gap of 20 the estimate does
    not have. *)
Lemma h1_rendered_exceeds_estimate (c : str) (x y max_width : Z) :
  rendered_height style getbbox (E_h1 c) x y max_width
  = _calculate_element_height style getbbox (E_h1 c) max_width + 20.
Proof.
  unfold rendered_height. cbn [_render_element _calculate_element_height].
  pose proof (draw_plain_lines_y x font_h1 (Style.title_color style)
                (Style.h1_line_spacing style)
                (_wrap_text getbbox c font_h1 max_width) y) as H.
  destruct (draw_plain_lines _ _ _ _ _ _) as [y' ops].
  simpl in H |- *. lia.
Qed.

(** Level-2 headings: a trailing gap of 15. *)
Lemma h2_rendered_exceeds_estimate (c : str) (x y max_width : Z) :
  rendered_height style getbbox (E_h2 c) x y max_width
  = _calculate_element_height style getbbox (E_h2 c) max_width + 15.
Proof.
  unfold rendered_height. cbn [_render_element _calculate_element_height].
  pose proof (draw_plain_lines_y x font_h2 (Style.title_color style)
                (Style.h2_line_spacing style)
                (_wrap_text getbbox c font_h2 max_width) y) as H.
  destruct (draw_plain_lines _ _ _ _ _ _) as [y' ops].
  simpl in H |- *. lia.
Qed.

(** Level-3 headings: a trailing gap of 10. *)
Lemma h3_rendered_exceeds_estimate (c : str) (x y max_width : Z) :
  rendered_height style getbbox (E_h3 c) x y max_width
  = _calculate_element_height style getbbox (E_h3 c) max_width + 10.
Proof.
  unfold rendered_height. cbn [_render_element _calculate_element_height].
  pose proof (draw_plain_lines_y x font_h3 (Style.title_color style)
                (Style.h3_line_spacing style)
                (_wrap_text getbbox c font_h3 max_width) y) as H.
  destruct (draw_plain_lines _ _ _ _ _ _) as [y' ops].
  simpl in H |- *. lia.
Qed.

(** Code blocks: rendering takes [30 + 20] around the lines, the estimate
    [40]. *)
Lemma code_rendered_exceeds_estimate (c language : str) (x y max_width : Z) :
  rendered_height style getbbox (E_code c language) x y max_width
  = _calculate_element_height style getbbox (E_code c language) max_width + 10.
Proof.
  unfold rendered_height. cbn [_render_element _calculate_element_height].
  destruct (draw_plain_lines _ _ _ _ _ _) as [y' ops].
  simpl. lia.
Qed.

End EstimateVsRender.

(** C1. The estimate and the rendered height differ already on a one-line
    level-1 heading (72 against 92 with the default style), on a one-line
    code block (90 against 100), and on a quote and a list, whose estimate
    goes through [_wrap_text] at another width than the
    [_wrap_formatted_text] call of the renderer. *)
Theorem estimate_differs_from_rendered_height :
  (_calculate_element_height Style.default mono_bbox (E_h1 (lit "Title")) 800
   = 72
   /\ rendered_height Style.default mono_bbox (E_h1 (lit "Title")) 50 50 800
      = 92)
  /\ (_calculate_element_height Style.default mono_bbox
        (E_code (lit "x = 1") (lit "python")) 800 = 90
      /\ rendered_height Style.default mono_bbox
           (E_code (lit "x = 1") (lit "python")) 50 50 800 = 100)
  /\ (_calculate_element_height Style.default mono_bbox
        (E_quote (lit "abcdef")) 100 = 94
      /\ rendered_height Style.default mono_bbox
           (E_quote (lit "abcdef")) 50 50 100 = 168)
  /\ (_calculate_element_height Style.default mono_bbox
        (E_list [lit "abcdefg"]) 70 = 212
      /\ rendered_height Style.default mono_bbox
           (E_list [lit "abcdefg"]) 50 50 70 = 148).
Proof. vm_compute. repeat split. Qed.

(** ** A code block of fifty lines *)

(** C2. With the default style ([code_line_spacing = 50]) a code block of
    fifty raw lines is estimated at [50 * 50 + 40 = 2540]; the renderer
    draws a background [50 * 50 + 30 = 2530] high and consumes 2550.  The
    claim gives the estimate as 2530. *)
Theorem code_block_of_fifty_lines :
  length (split newline fifty_lines) = 50%nat
  /\ Style.code_line_spacing Style.default = 50
  /\ _calculate_element_height Style.default mono_bbox
       (E_code fifty_lines []) 800 = 2540
  /\ hd_error (snd (_render_element Style.default mono_bbox
                     (E_code fifty_lines []) 50 50 800))
     = Some (draw_rectangle 50 50 (50 + 800) (50 + 2530) (240, 240, 240)
                            (Some (220, 220, 220)))
  /\ rendered_height Style.default mono_bbox (E_code fifty_lines []) 50 50 800
     = 2550.
Proof. vm_compute. repeat split. Qed.

(** ** The width bound of the line wrapper *)

Section WidthBound.

Variable getbbox : Font -> str -> Z * Z * Z * Z.
Hypothesis getbbox_additive : additive getbbox.

Variable font : Font.
Variable max_width : Z.
Hypothesis max_width_nonneg : 0 <= max_width.

Lemma line_width_snoc (l : Line) (s : Segment) :
  line_width getbbox font (l ++ [s])
  = line_width getbbox font l + seg_width_of getbbox font s.
Proof.
  induction l as [|a l IH].
  - simpl. lia.
  - change (line_width getbbox font ((a :: l) ++ [s]))
      with (seg_width_of getbbox font a + line_width getbbox font (l ++ [s])).
    change (line_width getbbox font (a :: l))
      with (seg_width_of getbbox font a + line_width getbbox font l).
    rewrite IH. lia.
Qed.

Lemma put_width (cur : Line) (ty : SpanType) (c : str) :
  line_width getbbox font (put cur ty c)
  = line_width getbbox font cur
    + text_width getbbox (seg_font_of font ty) c.
Proof.
  unfold put. destruct (snoc_case cur) as [-> | (l' & x & ->)].
  - simpl. unfold seg_width_of, text_width. simpl. lia.
  - rewrite last_item_snoc.
    destruct (type_eqb (type x) ty) eqn:E.
    + apply type_eqb_eq in E. subst ty.
      rewrite removelast_last, !line_width_snoc.
      unfold seg_width_of. cbn [type content].
      fold (text_width getbbox (seg_font_of font (type x)) (content x ++ c)).
      rewrite getbbox_additive. unfold text_width. lia.
    + rewrite !line_width_snoc. unfold seg_width_of, text_width. simpl. lia.
Qed.

Lemma within_width_le (line : Line) :
  line_width getbbox font line <= max_width ->
  within_width getbbox font max_width line = true.
Proof.
  intros H. unfold within_width. apply orb_true_iff. left.
  apply Z.leb_le, H.
Qed.

Lemma flush_within (lines : list Line) (cur : Line) :
  forallb (within_width getbbox font max_width) lines = true ->
  within_width getbbox font max_width cur = true ->
  forallb (within_width getbbox font max_width) (flush lines cur) = true.
Proof.
  intros Hl Hc. unfold flush. destruct (truthy cur); [| exact Hl].
  rewrite forallb_app, Hl. simpl. rewrite Hc. reflexivity.
Qed.

Lemma char_step_inv (ty : SpanType) (st : WrapState) (c : char) :
  wrap_inv getbbox font max_width st ->
  wrap_inv getbbox font max_width (char_step getbbox ty (seg_font_of font ty) max_width st c).
Proof.
  destruct st as [[lines cur] cw]. intros (Hl & Hw & Hc).
  unfold char_step.
  pose proof (eq_refl : text_width getbbox (seg_font_of font ty) [c]
                        = fst (_get_text_size getbbox [c] (seg_font_of font ty)))
    as Hcw.
  destruct (_get_text_size getbbox [c] (seg_font_of font ty))
    as [char_width h].
  simpl in Hcw.
  destruct (Z.leb_spec (cw + char_width) max_width) as [Hle | Hgt].
  - assert (E : cw + char_width
                = line_width getbbox font (put cur ty [c]))
      by (rewrite put_width; lia).
    split; [exact Hl | split; [exact E |]].
    apply within_width_le. lia.
  - split; [apply flush_within; assumption | split].
    + simpl. unfold seg_width_of. simpl.
      fold (text_width getbbox (seg_font_of font ty) [c]). lia.
    + unfold within_width, single_char_overflow, line_width.
      cbn [fold_right content]. unfold seg_width_of. cbn [type content].
      fold (text_width getbbox (seg_font_of font ty) [c]). rewrite Hcw.
      destruct (Z.leb_spec (char_width + 0) max_width) as [_ | Hover];
        [reflexivity |].
      simpl. apply Z.ltb_lt. lia.
Qed.

Lemma char_loop_inv (ty : SpanType) (cs : str) (st : WrapState) :
  wrap_inv getbbox font max_width st ->
  wrap_inv getbbox font max_width (fold_left (char_step getbbox ty (seg_font_of font ty) max_width)
                      cs st).
Proof.
  revert st. induction cs as [|c cs IH]; intros st H; simpl.
  - exact H.
  - apply IH, char_step_inv, H.
Qed.

Lemma seg_step_inv (st : WrapState) (seg : Segment) :
  wrap_inv getbbox font max_width st -> wrap_inv getbbox font max_width (seg_step getbbox font max_width st seg).
Proof.
  destruct st as [[lines cur] cw]. intros (Hl & Hw & Hc).
  unfold seg_step.
  pose proof (eq_refl : seg_width_of getbbox font seg
                        = fst (_get_text_size getbbox (content seg)
                                 (seg_font_of font (type seg)))) as Hsw.
  destruct (_get_text_size getbbox (content seg) (seg_font_of font (type seg)))
    as [seg_width h].
  simpl in Hsw.
  destruct (Z.leb_spec (cw + seg_width) max_width) as [Hle | Hgt].
  - assert (E : cw + seg_width
                = line_width getbbox font (put cur (type seg) (content seg))).
    { rewrite put_width. unfold seg_width_of in Hsw. unfold text_width. lia. }
    split; [exact Hl | split; [exact E |]].
    apply within_width_le. lia.
  - destruct (is_formatted (type seg)); simpl.
    + destruct (Z.leb_spec seg_width max_width) as [Hfit | Hwide].
      * split; [apply flush_within; assumption | split].
        -- simpl. destruct seg as [ty c]. unfold seg_width_of in *.
           simpl in *. lia.
        -- apply within_width_le. simpl. destruct seg as [ty c].
           unfold seg_width_of in *. simpl in *. lia.
      * apply char_loop_inv. repeat split; assumption.
    + apply char_loop_inv. repeat split; assumption.
Qed.

Lemma seg_loop_inv (segs : list Segment) (st : WrapState) :
  wrap_inv getbbox font max_width st ->
  wrap_inv getbbox font max_width (fold_left (seg_step getbbox font max_width) segs st).
Proof.
  revert st. induction segs as [|s segs IH]; intros st H; simpl.
  - exact H.
  - apply IH, seg_step_inv, H.
Qed.

(** C6, amended. When the font metric is additive and [max_width] is not
    negative, every line the wrapper returns has a sum of measured span
    widths of at most [max_width], or consists of exactly one span of one
    character that is wider than [max_width]. *)
Theorem wrapped_lines_within_width (segments : list Segment) :
  width_bound getbbox font max_width segments = true.
Proof.
  unfold width_bound, _wrap_formatted_text.
  assert (H0 : wrap_inv getbbox font max_width wrap_init).
  { repeat split. simpl. apply within_width_le. simpl. exact max_width_nonneg. }
  pose proof (@seg_loop_inv segments wrap_init H0) as H.
  destruct (fold_left _ segments wrap_init) as [[lines cur] cw].
  destruct H as (Hl & Hw & Hc).
  pose proof (@flush_within lines cur Hl Hc) as Hf.
  destruct (flush lines cur) as [|l ls].
  - simpl. rewrite andb_true_r. apply within_width_le. simpl.
    exact max_width_nonneg.
  - exact Hf.
Qed.

End WidthBound.

Lemma mono_bbox_additive : additive mono_bbox.
Proof.
  intros font a b. unfold text_width, _get_text_size, mono_bbox, len.
  cbn [fst]. rewrite length_app. lia.
Qed.

(** A paragraph of three spans wrapped at 50 in a monospaced font. *)
Lemma wrapped_lines_within_width_witness :
  additive mono_bbox /\ 0 <= 50
  /\ width_bound mono_bbox font_body 50
       [mkSeg normal (lit "Hello "); mkSeg bold (lit "world");
        mkSeg normal (lit "!")] = true.
Proof.
  split; [exact mono_bbox_additive | split; [lia |]].
  apply (@wrapped_lines_within_width mono_bbox mono_bbox_additive font_body 50).
  lia.
Defined.

(** C6 as stated fails for a metric that is not additive: with [ink_bbox]
    each of ["a"], ["b"], ["c"] measures 8, so the wrapper puts all three on
    a line of width 24, but the span ["abc"] it has built measures 28.  It
    also fails for a negative width: the single empty line returned for no
    input has width 0. *)
Lemma non_additive_metric_overflows :
  (_wrap_formatted_text ink_bbox [mkSeg normal (lit "abc")] font_body 24
   = [[mkSeg normal (lit "abc")]]
   /\ line_width ink_bbox font_body [mkSeg normal (lit "abc")] = 28
   /\ width_bound ink_bbox font_body 24 [mkSeg normal (lit "abc")] = false)
  /\ (_wrap_formatted_text mono_bbox [] font_body (-1) = [[]]
      /\ width_bound mono_bbox font_body (-1) [] = false).
Proof. vm_compute. repeat split. Qed.

(** ** The scanning loop of the tokenizer *)

Section Scanner.

Local Open Scope nat_scope.

Lemma is_prefix_length (p s : str) :
  is_prefix p s = true -> length p <= length s.
Proof.
  revert s. induction p as [|a p IH]; intros [|b s] H; simpl in *;
    try lia; try discriminate.
  destruct (char_eq_dec a b); [apply IH in H; lia | discriminate].
Qed.

Lemma find_from_bounds (sub s : str) (p e : nat) :
  find_from sub s p = Some e -> p <= e /\ e + length sub <= p + length s.
Proof.
  revert p. induction s as [|c s IH]; intros p H; simpl in H.
  - destruct (is_prefix sub []) eqn:E; [| discriminate].
    injection H as <-. apply is_prefix_length in E. simpl in *. lia.
  - destruct (is_prefix sub (c :: s)) eqn:E.
    + injection H as <-. apply is_prefix_length in E. simpl in *. lia.
    + apply IH in H. simpl. lia.
Qed.

Lemma find_bounds (text sub : str) (start e : nat) :
  find text sub start = Some e ->
  start <= e /\ e + length sub <= length text.
Proof.
  unfold find. destruct (Nat.leb_spec start (length text)) as [Hle | Hgt];
    [| discriminate].
  intros H. apply find_from_bounds in H. rewrite length_skipn in H. lia.
Qed.

Lemma first_special_bounds (s : str) (pos p : nat) :
  first_special s pos = Some p -> pos <= p < pos + length s.
Proof.
  revert pos. induction s as [|c s IH]; intros pos H; simpl in H.
  - discriminate.
  - destruct (is_special c).
    + injection H as <-. simpl. lia.
    + apply IH in H. simpl. lia.
Qed.

Lemma slice_length (s : str) (i j : nat) :
  length (slice s i j) = Nat.min (j - i) (length s - i).
Proof. unfold slice. rewrite length_firstn, length_skipn. reflexivity. Qed.

Lemma next_special_bounds (text : str) (i n : nat) :
  i < n -> i < next_special text i n <= n.
Proof.
  intros Hi. unfold next_special.
  destruct (first_special (slice text (i + 1) n) (i + 1)) as [p|] eqn:E.
  - apply first_special_bounds in E. rewrite slice_length in E. lia.
  - lia.
Qed.

Ltac match_advances :=
  match goal with
  | |- advances _ _ (if ?b then _ else _) =>
      destruct b; [| exact I]; match_advances
  | |- advances _ _ (match find ?t ?s ?k with _ => _ end) =>
      let E := fresh "E" in
      destruct (find t s k) eqn:E; [| exact I];
      apply find_bounds in E; match_advances
  | |- advances _ _ (Some _) =>
      simpl in *; lia
  | |- advances _ _ None => exact I
  end.

Lemma match_bold_italic_advances text i n :
  advances text i (match_bold_italic text i n).
Proof. unfold match_bold_italic. match_advances. Qed.

Lemma match_bold_star_advances text i n :
  advances text i (match_bold_star text i n).
Proof. unfold match_bold_star. match_advances. Qed.

Lemma match_italic_star_advances text i n :
  advances text i (match_italic_star text i n).
Proof. unfold match_italic_star. match_advances. Qed.

Lemma match_code_advances text i n :
  advances text i (match_code text i n).
Proof. unfold match_code. match_advances. Qed.

Lemma match_highlight_advances text i n :
  advances text i (match_highlight text i n).
Proof. unfold match_highlight. match_advances. Qed.

Lemma match_bold_under_advances text i n :
  advances text i (match_bold_under text i n).
Proof. unfold match_bold_under. match_advances. Qed.

Lemma match_italic_under_advances text i n :
  advances text i (match_italic_under text i n).
Proof. unfold match_italic_under. match_advances. Qed.

Lemma or_else_advances text i (a b : option Match) :
  advances text i a -> advances text i b -> advances text i (or_else a b).
Proof. destruct a; simpl; auto. Qed.

Lemma match_at_advances text i n : advances text i (match_at text i n).
Proof.
  unfold match_at.
  repeat apply or_else_advances;
    auto using match_bold_italic_advances, match_bold_star_advances,
      match_italic_star_advances, match_code_advances,
      match_highlight_advances, match_bold_under_advances,
      match_italic_under_advances.
Qed.

(** Every iteration moves [i] forward and not beyond the end. *)
Lemma loop_body_advances (text : str) (i : nat) (segs : list Segment) :
  i < length text ->
  i < fst (loop_body text (length text) (i, segs)) <= length text.
Proof.
  intros Hi. unfold loop_body.
  pose proof (match_at_advances text i (length text)) as H.
  destruct (match_at text i (length text)) as [[[ty c] i']|].
  - exact H.
  - simpl. apply next_special_bounds, Hi.
Qed.

(** The loop is left with [i = n] once the fuel covers the distance. *)
Lemma while_loop_exits (text : str) (fuel i : nat) (segs : list Segment) :
  i <= length text -> length text - i <= fuel ->
  fst (while_loop fuel text (length text) (i, segs)) = length text.
Proof.
  revert i segs.
  induction fuel as [|fuel IH]; intros i segs Hi Hf; cbn [while_loop fst].
  - lia.
  - destruct (Nat.ltb_spec i (length text)) as [Hlt | Hge];
      [| cbn [fst]; lia].
    pose proof (loop_body_advances text segs Hlt) as H.
    destruct (loop_body text (length text) (i, segs)) as [i' segs'].
    simpl in H. apply IH; lia.
Qed.

(** More fuel than needed changes nothing. *)
Lemma while_loop_fuel (text : str) (fuel fuel' i : nat) (segs : list Segment) :
  i <= length text -> length text - i <= fuel -> length text - i <= fuel' ->
  while_loop fuel text (length text) (i, segs)
  = while_loop fuel' text (length text) (i, segs).
Proof.
  revert fuel' i segs.
  induction fuel as [|fuel IH]; intros fuel' i segs Hi Hf Hf'.
  - destruct fuel'; cbn [while_loop fst]; [reflexivity |].
    destruct (Nat.ltb_spec i (length text)); [lia | reflexivity].
  - cbn [while_loop fst].
    destruct (Nat.ltb_spec i (length text)) as [Hlt | Hge].
    + destruct fuel' as [|fuel']; [lia |]. cbn [while_loop fst].
      destruct (Nat.ltb_spec i (length text)) as [_ | Hge]; [| lia].
      pose proof (loop_body_advances text segs Hlt) as H.
      destruct (loop_body text (length text) (i, segs)) as [i' segs'].
      simpl in H. apply IH; lia.
    + destruct fuel'; cbn [while_loop fst]; [reflexivity |].
      destruct (Nat.ltb_spec i (length text)); [lia | reflexivity].
Qed.

(** The scan of [_parse_inline_format] terminates: with the fuel it is
    given, the loop condition [i < n] is false at the end. *)
Lemma scan_exits (text : str) :
  fst (while_loop (length text) text (length text) (0, [])) = length text.
Proof. apply while_loop_exits; lia. Qed.

End Scanner.

(** ** The empty-output fallback *)

Lemma only_empty_pairs_no_segment (fuel : nat) (text : str) (n i : nat)
      (segs : list Segment) :
  forallb (fun ev : option Match =>
             match ev with
             | Some (_, c, _) => negb (truthy c)
             | None => false
             end)
          (trace_loop fuel text n i) = true ->
  snd (while_loop fuel text n (i, segs)) = segs.
Proof.
  revert i. induction fuel as [|fuel IH]; intros i H;
    cbn [while_loop trace_loop fst] in *.
  - reflexivity.
  - destruct (i <? n)%nat; [| reflexivity].
    unfold loop_body.
    destruct (match_at text i n) as [[[ty c] i']|]; simpl in H.
    + apply andb_true_iff in H. destruct H as [Hc H].
      destruct (truthy c); [discriminate |]. apply IH, H.
    + discriminate.
Qed.

(** C10, amended. When every iteration of the scan matches a delimiter pair
    with empty content (as on ["****"], ["===="], and trivially on the empty
    string), the tokenizer returns exactly one normal span whose text is the
    whole input, delimiters included. *)
Theorem fallback_returns_whole_input (text : str) :
  only_empty_pairs text = true ->
  _parse_inline_format text = [mkSeg normal text].
Proof.
  intros H. unfold _parse_inline_format, scan.
  unfold only_empty_pairs, scan_trace in H.
  rewrite (only_empty_pairs_no_segment _ _ _ _ [] H). reflexivity.
Qed.

Lemma fallback_returns_whole_input_witness :
  only_empty_pairs (lit "****") = true
  /\ _parse_inline_format (lit "****") = [mkSeg normal (lit "****")].
Proof.
  split; [reflexivity |].
  apply (@fallback_returns_whole_input (lit "****")). reflexivity.
Defined.

(** The inputs the claim names. *)
Example fallback_examples :
  _parse_inline_format (lit "****") = [mkSeg normal (lit "****")]
  /\ _parse_inline_format (lit "====") = [mkSeg normal (lit "====")]
  /\ _parse_inline_format [] = [mkSeg normal []].
Proof. vm_compute. repeat split. Qed.

(** C10 as stated fails.  In ["a****"] the only matched pair is the empty
    bold pair, yet the result is [normal "a"]: the delimiters are dropped.
    In ["********"] the only matched pair is the empty bold-italic pair of
    the first six stars, and the result is [normal "**"]. *)
Lemma empty_pairs_beside_text_are_dropped :
  (every_pair_empty (lit "a****") = true
   /\ _parse_inline_format (lit "a****") = [mkSeg normal (lit "a")]
   /\ _parse_inline_format (lit "a****") <> [mkSeg normal (lit "a****")])
  /\ (every_pair_empty (lit "********") = true
      /\ _parse_inline_format (lit "********") = [mkSeg normal (lit "**")]
      /\ _parse_inline_format (lit "********")
         <> [mkSeg normal (lit "********")]).
Proof.
  repeat split; try (vm_compute; reflexivity); vm_compute; discriminate.
Qed.

(** ** The scan depends on the remaining text only *)

Section ScanSuffix.

Local Open Scope nat_scope.

Variables pre suf : str.

Lemma skipn_shift (k : nat) : skipn (length pre + k) (pre ++ suf) = skipn k suf.
Proof.
  rewrite skipn_app, skipn_all2 by lia.
  replace (length pre + k - length pre) with k by lia. reflexivity.
Qed.

Lemma slice_shift (a b : nat) :
  slice (pre ++ suf) (length pre + a) (length pre + b) = slice suf a b.
Proof.
  unfold slice. rewrite skipn_shift.
  replace (length pre + b - (length pre + a)) with (b - a) by lia.
  reflexivity.
Qed.

Lemma char_is_shift (k : nat) (c : string) :
  char_is (pre ++ suf) (length pre + k) c = char_is suf k c.
Proof.
  unfold char_is, char_at. rewrite nth_error_app2 by lia.
  replace (length pre + k - length pre) with k by lia. reflexivity.
Qed.

Lemma find_from_shift (sub s : str) (p q : nat) :
  find_from sub s (p + q) = option_map (Nat.add p) (find_from sub s q).
Proof.
  revert q. induction s as [|c s IH]; intros q; simpl.
  - destruct (is_prefix sub []); reflexivity.
  - destruct (is_prefix sub (c :: s)); [reflexivity |].
    rewrite <- IH. f_equal. lia.
Qed.

Lemma find_shift (sub : str) (k : nat) :
  find (pre ++ suf) sub (length pre + k)
  = option_map (Nat.add (length pre)) (find suf sub k).
Proof.
  unfold find. rewrite length_app, skipn_shift.
  destruct (Nat.leb_spec (length pre + k) (length pre + length suf));
    destruct (Nat.leb_spec k (length suf)); try lia.
  - apply find_from_shift.
  - reflexivity.
Qed.

Lemma first_special_shift (s : str) (p q : nat) :
  first_special s (p + q) = option_map (Nat.add p) (first_special s q).
Proof.
  revert q. induction s as [|c s IH]; intros q; simpl.
  - reflexivity.
  - destruct (is_special c); [reflexivity |].
    rewrite <- IH. f_equal. lia.
Qed.

Lemma next_special_shift (i n : nat) :
  next_special (pre ++ suf) (length pre + i) (length pre + n)
  = length pre + next_special suf i n.
Proof.
  unfold next_special. rewrite <- Nat.add_assoc, slice_shift, first_special_shift.
  destruct (first_special (slice suf (i + 1) n) (i + 1)); reflexivity.
Qed.

Lemma leb_shift (a b : nat) :
  (length pre + a <=? length pre + b) = (a <=? b).
Proof.
  destruct (Nat.leb_spec (length pre + a) (length pre + b));
    destruct (Nat.leb_spec a b); try lia; reflexivity.
Qed.

Ltac shift_matcher :=
  repeat (rewrite <- ?Nat.add_assoc;
          rewrite ?leb_shift, ?slice_shift, ?char_is_shift, ?find_shift;
          cbn [option_map]; cbn beta iota;
          first [ reflexivity
                | match goal with
                  | |- context [find suf ?s ?k] => destruct (find suf s k)
                  | |- context [if ?b then _ else _] => destruct b
                  end ]).

Lemma match_bold_italic_shift (i n : nat) :
  match_bold_italic (pre ++ suf) (length pre + i) (length pre + n)
  = option_map (shift (length pre)) (match_bold_italic suf i n).
Proof. unfold match_bold_italic, shift. shift_matcher. Qed.

Lemma match_bold_star_shift (i n : nat) :
  match_bold_star (pre ++ suf) (length pre + i) (length pre + n)
  = option_map (shift (length pre)) (match_bold_star suf i n).
Proof. unfold match_bold_star, shift. shift_matcher. Qed.

Lemma match_italic_star_shift (i n : nat) :
  match_italic_star (pre ++ suf) (length pre + i) (length pre + n)
  = option_map (shift (length pre)) (match_italic_star suf i n).
Proof. unfold match_italic_star, shift. shift_matcher. Qed.

Lemma match_code_shift (i n : nat) :
  match_code (pre ++ suf) (length pre + i) (length pre + n)
  = option_map (shift (length pre)) (match_code suf i n).
Proof. unfold match_code, shift. shift_matcher. Qed.

Lemma match_highlight_shift (i n : nat) :
  match_highlight (pre ++ suf) (length pre + i) (length pre + n)
  = option_map (shift (length pre)) (match_highlight suf i n).
Proof. unfold match_highlight, shift. shift_matcher. Qed.

Lemma match_bold_under_shift (i n : nat) :
  match_bold_under (pre ++ suf) (length pre + i) (length pre + n)
  = option_map (shift (length pre)) (match_bold_under suf i n).
Proof. unfold match_bold_under, shift. shift_matcher. Qed.

Lemma match_italic_under_shift (i n : nat) :
  match_italic_under (pre ++ suf) (length pre + i) (length pre + n)
  = option_map (shift (length pre)) (match_italic_under suf i n).
Proof. unfold match_italic_under, shift. shift_matcher. Qed.

Lemma or_else_map (A B : Type) (f : A -> B) (a b : option A) :
  or_else (option_map f a) (option_map f b) = option_map f (or_else a b).
Proof. destruct a; reflexivity. Qed.

Lemma match_at_shift (i n : nat) :
  match_at (pre ++ suf) (length pre + i) (length pre + n)
  = option_map (shift (length pre)) (match_at suf i n).
Proof.
  unfold match_at.
  rewrite match_bold_italic_shift, match_bold_star_shift,
    match_italic_star_shift, match_code_shift, match_highlight_shift,
    match_bold_under_shift, match_italic_under_shift.
  rewrite !or_else_map. reflexivity.
Qed.

(** One iteration on the whole text does what it does on the remaining
    text, with positions moved by [length pre] and the new segment, if any,
    appended to those already there. *)
Lemma loop_body_shift (i n : nat) (segs : list Segment) :
  loop_body (pre ++ suf) (length pre + n) (length pre + i, segs)
  = (length pre + fst (loop_body suf n (i, [])),
     segs ++ snd (loop_body suf n (i, []))).
Proof.
  unfold loop_body. rewrite match_at_shift.
  destruct (match_at suf i n) as [[[ty c] e]|]; cbn [option_map shift fst snd].
  - destruct (truthy c); [reflexivity | rewrite app_nil_r; reflexivity].
  - rewrite next_special_shift, slice_shift. reflexivity.
Qed.

End ScanSuffix.

Section ScanUnfold.

Local Open Scope nat_scope.

Lemma ltb_shift (p a b : nat) : (p + a <? p + b) = (a <? b).
Proof.
  destruct (Nat.ltb_spec (p + a) (p + b)); destruct (Nat.ltb_spec a b);
    try lia; reflexivity.
Qed.

Lemma while_loop_shift (fuel : nat) :
  forall (pre suf : str) (n i : nat) (segs : list Segment),
    while_loop fuel (pre ++ suf) (length pre + n) (length pre + i, segs)
    = (length pre + fst (while_loop fuel suf n (i, [])),
       segs ++ snd (while_loop fuel suf n (i, []))).
Proof.
  induction fuel as [|fuel IH]; intros pre suf n i segs;
    cbn [while_loop fst snd].
  - rewrite app_nil_r. reflexivity.
  - rewrite ltb_shift. destruct (i <? n).
    + rewrite loop_body_shift, IH.
      destruct (loop_body suf n (i, [])) as [i1 new1]. cbn [fst snd].
      pose proof (IH [] suf n i1 new1) as H. simpl in H. rewrite H.
      cbn [fst snd]. rewrite app_assoc. reflexivity.
    + cbn [fst snd]. rewrite app_nil_r. reflexivity.
Qed.

(** The scan of a text is what its first iteration yields, followed by the
    scan of the text that iteration leaves. *)
Lemma scan_unfold (text : str) :
  text <> [] ->
  scan text
  = snd (loop_body text (length text) (0, []))
    ++ scan (skipn (fst (loop_body text (length text) (0, []))) text).
Proof.
  intros Hne. unfold scan at 1.
  destruct (length text) as [|n'] eqn:En.
  { destruct text; [congruence | discriminate]. }
  cbn [while_loop fst]. rewrite <- En.
  assert (Hlt : 0 < length text) by lia.
  replace (0 <? length text) with true
    by (symmetry; apply Nat.ltb_lt; exact Hlt).
  pose proof (loop_body_advances text [] Hlt) as Hadv.
  destruct (loop_body text (length text) (0, [])) as [i1 new1].
  cbn [fst snd] in *.
  set (p := firstn i1 text). set (s := skipn i1 text).
  assert (Hp : length p = i1) by (unfold p; rewrite length_firstn; lia).
  assert (Hs : length s = length text - i1)
    by (unfold s; apply length_skipn).
  assert (Et : text = p ++ s) by (symmetry; apply firstn_skipn).
  assert (El : length text = length p + length s) by lia.
  rewrite Et at 1. rewrite El.
  replace i1 with (length p + 0) at 1 by lia.
  rewrite while_loop_shift. cbn [snd]. f_equal.
  unfold scan.
  replace (while_loop n' s (length s) (0, []))
    with (while_loop (length s) s (length s) (0, []))
    by (apply while_loop_fuel; lia).
  reflexivity.
Qed.

Lemma scan_matched (text : str) (ty : SpanType) (c : str) (e : nat) :
  match_at text 0 (length text) = Some (ty, c, e) ->
  scan text = (if truthy c then [mkSeg ty c] else []) ++ scan (skipn e text).
Proof.
  intros H. destruct text as [|a text].
  - pose proof (match_at_advances [] 0 0) as A. simpl length in H.
    rewrite H in A. simpl in A. lia.
  - rewrite scan_unfold by discriminate. unfold loop_body. rewrite H.
    reflexivity.
Qed.

Lemma scan_plain (text : str) :
  text <> [] ->
  match_at text 0 (length text) = None ->
  scan text
  = [mkSeg normal (firstn (next_special text 0 (length text)) text)]
    ++ scan (skipn (next_special text 0 (length text)) text).
Proof.
  intros Hne H. rewrite scan_unfold by exact Hne. unfold loop_body.
  rewrite H. cbn [fst snd]. unfold slice. rewrite Nat.sub_0_r. reflexivity.
Qed.

End ScanUnfold.

(** ** The four two-sided matchers *)

Lemma match_bold_italic_pair text i n :
  match_bold_italic text i n = match_pair (lit "***") bold_italic text i n.
Proof. reflexivity. Qed.

Lemma match_bold_star_pair text i n :
  match_bold_star text i n = match_pair (lit "**") bold text i n.
Proof. reflexivity. Qed.

Lemma match_highlight_pair text i n :
  match_highlight text i n = match_pair (lit "==") highlight text i n.
Proof. reflexivity. Qed.

Lemma match_bold_under_pair text i n :
  match_bold_under text i n = match_pair (lit "__") bold text i n.
Proof. reflexivity. Qed.

(** ** Matching a delimiter pair *)

Section PairMatch.

Local Open Scope nat_scope.

Lemma str_eqb_refl (s : str) : str_eqb s s = true.
Proof. unfold str_eqb. destruct (str_eq_dec s s); congruence. Qed.

Lemma str_eqb_neq (a b : str) : a <> b -> str_eqb a b = false.
Proof. unfold str_eqb. destruct (str_eq_dec a b); congruence. Qed.

Lemma is_prefix_app (m t : str) : is_prefix m (m ++ t) = true.
Proof.
  induction m as [|a m IH]; simpl; [reflexivity |].
  destruct (char_eq_dec a a); [exact IH | congruence].
Qed.

Lemma special_head_no_prefix (m : str) (c : char) (s : str) :
  special_head m -> is_special c = false -> is_prefix m (c :: s) = false.
Proof.
  destruct m as [|h m]; simpl; [contradiction |].
  intros Hh Hc. destruct (char_eq_dec h c); [congruence | reflexivity].
Qed.

Lemma find_from_hit (m s : str) (p : nat) :
  is_prefix m s = true -> find_from m s p = Some p.
Proof. intros H. destruct s; simpl; rewrite H; reflexivity. Qed.

Lemma find_from_plain (m body t : str) (p : nat) :
  special_head m -> plain body ->
  find_from m (body ++ m ++ t) p = Some (p + length body).
Proof.
  intros Hm Hb. revert p. induction Hb as [|c body Hc Hb IH]; intros p.
  - cbn [app]. rewrite find_from_hit by apply is_prefix_app.
    f_equal. simpl. lia.
  - simpl. rewrite special_head_no_prefix by assumption.
    rewrite IH. f_equal. lia.
Qed.

Lemma find_plain (m body t : str) :
  special_head m -> plain body ->
  find (m ++ body ++ m ++ t) m (length m) = Some (length m + length body).
Proof.
  intros Hm Hb.
  replace (length m) with (length m + 0) at 1 by lia.
  rewrite find_shift. unfold find. simpl.
  rewrite find_from_plain by assumption. reflexivity.
Qed.

Lemma slice_head (m r : str) : slice (m ++ r) 0 (length m) = m.
Proof.
  unfold slice. simpl. rewrite Nat.sub_0_r, firstn_app, firstn_all.
  rewrite Nat.sub_diag. simpl. apply app_nil_r.
Qed.

Lemma slice_body (m body r : str) :
  slice (m ++ body ++ r) (length m) (length m + length body) = body.
Proof.
  replace (length m) with (length m + 0) at 1 by lia.
  rewrite slice_shift. apply slice_head.
Qed.

Lemma match_pair_hit (m : str) (ty : SpanType) (body t : str) :
  special_head m -> plain body ->
  match_pair m ty (m ++ body ++ m ++ t) 0 (length (m ++ body ++ m ++ t))
  = Some (ty, body, length m + length body + length m).
Proof.
  intros Hm Hb. unfold match_pair. cbn [Nat.add].
  rewrite slice_head, str_eqb_refl, find_plain by assumption.
  rewrite slice_body.
  replace (2 * length m <=? length (m ++ body ++ m ++ t)) with true.
  - reflexivity.
  - symmetry. apply Nat.leb_le. rewrite !length_app. lia.
Qed.

Lemma match_pair_miss (m : str) (ty : SpanType) (text : str) (n : nat) :
  firstn (length m) text <> m -> match_pair m ty text 0 n = None.
Proof.
  intros H. unfold match_pair, slice. cbn [Nat.add skipn].
  rewrite Nat.sub_0_r, str_eqb_neq by exact H.
  rewrite andb_false_r. reflexivity.
Qed.

Lemma not_special (c : char) :
  is_special c = false ->
  c <> 42%N /\ c <> 96%N /\ c <> 95%N /\ c <> 61%N.
Proof.
  unfold is_special. destruct (in_dec char_eq_dec c (lit "*`_=")) as [|H];
    [discriminate |].
  intros _. repeat split; intros ->; apply H; vm_compute; tauto.
Qed.

Lemma slice_after (m body r : str) (k : nat) :
  slice (m ++ body ++ r) (length m + length body) (length m + length body + k)
  = firstn k r.
Proof.
  rewrite <- Nat.add_assoc, slice_shift.
  replace (length body) with (length body + 0) at 1 by lia.
  rewrite slice_shift. unfold slice. simpl. rewrite Nat.sub_0_r. reflexivity.
Qed.

Lemma char_is_head (c : char) (r : str) (x : string) :
  lit x = [c] -> char_is (c :: r) 0 x = true.
Proof. intros E. unfold char_is. simpl. rewrite E. apply str_eqb_refl. Qed.

Lemma char_is_other (c : char) (r : str) (x : string) :
  lit x <> [c] -> char_is (c :: r) 0 x = false.
Proof.
  intros E. unfold char_is. simpl. apply str_eqb_neq. congruence.
Qed.

(** The guard on the closing marker of an italic pair holds when the pair
    closes cleanly. *)
Lemma closing_not_doubled (ch : char) (t : str) :
  hd_error t <> Some ch -> str_eqb (firstn 2 (ch :: t)) [ch; ch] = false.
Proof.
  intros H. apply str_eqb_neq. destruct t as [|c t]; simpl.
  - discriminate.
  - intros E. injection E as E. apply H. simpl. congruence.
Qed.

Lemma match_italic_star_hit (body t : str) :
  plain body -> body <> [] -> hd_error t <> Some 42%N ->
  match_italic_star (lit "*" ++ body ++ lit "*" ++ t) 0
                    (length (lit "*" ++ body ++ lit "*" ++ t))
  = Some (italic, body, length (lit "*") + length body + length (lit "*")).
Proof.
  intros Hb Hne Ht. unfold match_italic_star.
  change (0 + 1) with (length (lit "*")).
  rewrite find_plain by (assumption || reflexivity).
  rewrite slice_after, slice_body.
  change (lit "*" ++ t) with (42%N :: t).
  rewrite closing_not_doubled by exact Ht.
  destruct body as [|b body]; [congruence |].
  inversion Hb as [|? ? Hsb _]; subst.
  apply not_special in Hsb. destruct Hsb as (Hb42 & _).
  replace (char_is (lit "*" ++ (b :: body) ++ 42%N :: t) 0 "*") with true
    by (symmetry; apply char_is_head; reflexivity).
  replace (str_eqb (slice (lit "*" ++ (b :: body) ++ 42%N :: t) 0 (0 + 2))
                   (lit "**")) with false
    by (symmetry; apply str_eqb_neq; cbn; congruence).
  reflexivity.
Qed.

Lemma match_italic_under_hit (body t : str) :
  plain body -> body <> [] -> hd_error t <> Some 95%N ->
  match_italic_under (lit "_" ++ body ++ lit "_" ++ t) 0
                     (length (lit "_" ++ body ++ lit "_" ++ t))
  = Some (italic, body, length (lit "_") + length body + length (lit "_")).
Proof.
  intros Hb Hne Ht. unfold match_italic_under.
  change (0 + 1) with (length (lit "_")).
  rewrite find_plain by (assumption || reflexivity).
  rewrite slice_after, slice_body.
  change (lit "_" ++ t) with (95%N :: t).
  rewrite closing_not_doubled by exact Ht.
  destruct body as [|b body]; [congruence |].
  inversion Hb as [|? ? Hsb _]; subst.
  apply not_special in Hsb. destruct Hsb as (_ & _ & Hb95 & _).
  replace (char_is (lit "_" ++ (b :: body) ++ 95%N :: t) 0 "_") with true
    by (symmetry; apply char_is_head; reflexivity).
  replace (str_eqb (slice (lit "_" ++ (b :: body) ++ 95%N :: t) 0 (0 + 2))
                   (lit "__")) with false
    by (symmetry; apply str_eqb_neq; cbn; congruence).
  reflexivity.
Qed.

Lemma match_code_hit (body t : str) :
  plain body ->
  match_code (lit "`" ++ body ++ lit "`" ++ t) 0
             (length (lit "`" ++ body ++ lit "`" ++ t))
  = Some (code, body, length (lit "`") + length body + length (lit "`")).
Proof.
  intros Hb. unfold match_code.
  change (0 + 1) with (length (lit "`")).
  rewrite find_plain by (assumption || reflexivity).
  rewrite slice_body.
  replace (char_is (lit "`" ++ body ++ lit "`" ++ t) 0 "`") with true
    by (symmetry; apply char_is_head; reflexivity).
  reflexivity.
Qed.

Lemma char_is_miss (text : str) (c : char) (x : string) :
  lit x = [c] -> hd_error text <> Some c -> char_is text 0 x = false.
Proof.
  intros E H. unfold char_is. destruct text as [|a r]; simpl; [reflexivity |].
  rewrite E. apply str_eqb_neq. simpl in H. congruence.
Qed.

Lemma match_italic_star_miss (text : str) (n : nat) :
  hd_error text <> Some 42%N -> match_italic_star text 0 n = None.
Proof.
  intros H. unfold match_italic_star.
  rewrite (@char_is_miss text 42%N) by (reflexivity || exact H).
  rewrite andb_false_r. reflexivity.
Qed.

Lemma match_code_miss (text : str) (n : nat) :
  hd_error text <> Some 96%N -> match_code text 0 n = None.
Proof.
  intros H. unfold match_code.
  rewrite (@char_is_miss text 96%N) by (reflexivity || exact H). reflexivity.
Qed.

Lemma match_italic_under_miss (text : str) (n : nat) :
  hd_error text <> Some 95%N -> match_italic_under text 0 n = None.
Proof.
  intros H. unfold match_italic_under.
  rewrite (@char_is_miss text 95%N) by (reflexivity || exact H). reflexivity.
Qed.

(** No delimiter is matched at a plain character. *)
Lemma match_at_plain (c : char) (r : str) (n : nat) :
  is_special c = false -> match_at (c :: r) 0 n = None.
Proof.
  intros H. apply not_special in H. destruct H as (H42 & H96 & H95 & H61).
  unfold match_at.
  rewrite match_bold_italic_pair, match_bold_star_pair, match_highlight_pair,
    match_bold_under_pair.
  rewrite (@match_pair_miss (lit "***")) by (cbn; congruence).
  rewrite (@match_pair_miss (lit "**")) by (cbn; congruence).
  rewrite (@match_pair_miss (lit "==")) by (cbn; congruence).
  rewrite (@match_pair_miss (lit "__")) by (cbn; congruence).
  rewrite match_italic_star_miss, match_code_miss, match_italic_under_miss
    by (cbn; congruence).
  reflexivity.
Qed.

(** At the opening marker of a pair with non-empty plain content that
    closes cleanly, the chain of tests matches that pair. *)
Lemma match_at_pair (d : Delim) (body t : str) :
  plain body -> body <> [] -> closes_cleanly d t ->
  match_at (marker d ++ body ++ marker d ++ t) 0
           (length (marker d ++ body ++ marker d ++ t))
  = Some (kind_of d, body,
          length (marker d) + length body + length (marker d)).
Proof.
  intros Hb Hne Hc.
  assert (Hb0 : exists b body', body = b :: body' /\ is_special b = false).
  { destruct body as [|b body']; [congruence |].
    exists b, body'. split; [reflexivity |]. inversion Hb; assumption. }
  destruct Hb0 as (b & body' & Eb & Hsb).
  apply not_special in Hsb. destruct Hsb as (H42 & H96 & H95 & H61).
  unfold match_at.
  rewrite match_bold_italic_pair, match_bold_star_pair, match_highlight_pair,
    match_bold_under_pair.
  destruct d; cbn [marker kind_of closes_cleanly] in *.
  - rewrite match_pair_hit by (assumption || reflexivity). reflexivity.
  - rewrite (@match_pair_miss (lit "***")) by (subst body; cbn; congruence).
    rewrite match_pair_hit by (assumption || reflexivity). reflexivity.
  - rewrite (@match_pair_miss (lit "***")) by (subst body; cbn; congruence).
    rewrite (@match_pair_miss (lit "**")) by (subst body; cbn; congruence).
    rewrite match_italic_star_hit by assumption. reflexivity.
  - rewrite (@match_pair_miss (lit "***")) by (cbn; congruence).
    rewrite (@match_pair_miss (lit "**")) by (cbn; congruence).
    rewrite match_italic_star_miss by (cbn; congruence).
    rewrite match_code_hit by assumption. reflexivity.
  - rewrite (@match_pair_miss (lit "***")) by (cbn; congruence).
    rewrite (@match_pair_miss (lit "**")) by (cbn; congruence).
    rewrite match_italic_star_miss, match_code_miss by (cbn; congruence).
    rewrite match_pair_hit by (assumption || reflexivity). reflexivity.
  - rewrite (@match_pair_miss (lit "***")) by (cbn; congruence).
    rewrite (@match_pair_miss (lit "**")) by (cbn; congruence).
    rewrite (@match_pair_miss (lit "==")) by (cbn; congruence).
    rewrite match_italic_star_miss, match_code_miss by (cbn; congruence).
    rewrite match_pair_hit by (assumption || reflexivity). reflexivity.
  - rewrite (@match_pair_miss (lit "***")) by (cbn; congruence).
    rewrite (@match_pair_miss (lit "**")) by (cbn; congruence).
    rewrite (@match_pair_miss (lit "==")) by (cbn; congruence).
    rewrite (@match_pair_miss (lit "__")) by (subst body; cbn; congruence).
    rewrite match_italic_star_miss, match_code_miss by (cbn; congruence).
    rewrite match_italic_under_hit by assumption. reflexivity.
Qed.

End PairMatch.

(** ** The tokenizer round trip *)

Section RoundTrip.

Local Open Scope nat_scope.

Lemma first_special_plain (s : str) (pos : nat) :
  match first_special s pos with
  | Some p => plain (firstn (p - pos) s)
  | None => plain s
  end.
Proof.
  revert pos. induction s as [|c s IH]; intros pos; simpl.
  - constructor.
  - destruct (is_special c) eqn:E.
    + rewrite Nat.sub_diag. constructor.
    + specialize (IH (S pos)).
      pose proof (first_special_bounds s (S pos)) as B.
      destruct (first_special s (S pos)) as [p|].
      * specialize (B p eq_refl).
        replace (p - pos) with (S (p - S pos)) by lia.
        simpl. constructor; assumption.
      * constructor; assumption.
Qed.

(** The plain run a non-matching iteration takes. *)
Lemma plain_run (c : char) (r : str) :
  is_special c = false ->
  plain (firstn (next_special (c :: r) 0 (length (c :: r))) (c :: r)).
Proof.
  intros Hc. unfold next_special, slice. cbn [Nat.add skipn length].
  replace (S (length r) - 1) with (length r) by lia.
  rewrite firstn_all.
  pose proof (first_special_plain r 1) as P.
  pose proof (first_special_bounds r 1) as B.
  destruct (first_special r 1) as [p|].
  - specialize (B p eq_refl). destruct p as [|p]; [lia |].
    simpl. constructor; [exact Hc |].
    replace (S p - 1) with p in P by lia. exact P.
  - simpl. constructor; [exact Hc |]. rewrite firstn_all. exact P.
Qed.

Lemma marker_special (d : Delim) : special_head (marker d).
Proof. destruct d; reflexivity. Qed.

Lemma marker_length (d : Delim) : 0 < length (marker d).
Proof. destruct d; cbn; lia. Qed.

Section Decompose.

Variable admissible : Delim -> str -> str -> Prop.

(** A plain prefix of marked text is kept as it is by the stripping, and
    what follows it is marked text again. *)
Lemma marked_skip_plain (k : nat) :
  forall text s,
    marked admissible text s -> plain (firstn k text) ->
    exists s', s = firstn k text ++ s' /\ marked admissible (skipn k text) s'.
Proof.
  induction k as [|k IH]; intros text s H Hp.
  - exists s. split; [reflexivity | exact H].
  - destruct H as [|c t s0 Hc H|d body t s0 Hb Ha H].
    + exists []. split; [reflexivity | constructor].
    + simpl in Hp. inversion Hp as [|? ? _ Hp']; subst.
      destruct (IH t s0 H Hp') as (s' & -> & Hs').
      exists s'. split; [reflexivity | exact Hs'].
    + exfalso. pose proof (marker_special d) as Hm.
      destruct (marker d) as [|h m]; [contradiction |].
      simpl in Hp, Hm. inversion Hp as [|? ? Hh _]; subst. congruence.
Qed.

End Decompose.

Lemma skipn_pair (m body t : str) :
  skipn (length m + length body + length m) (m ++ body ++ m ++ t) = t.
Proof.
  rewrite <- !Nat.add_assoc, skipn_shift.
  replace (length body + length m) with (length body + length m + 0) by lia.
  rewrite <- Nat.add_assoc, skipn_shift, skipn_shift. reflexivity.
Qed.

Lemma truthy_true (A : Type) (l : list A) : l <> [] -> truthy l = true.
Proof. destruct l; [congruence | reflexivity]. Qed.

(** On well-separated text the scan yields the stripped text. *)
Lemma scan_strips (k : nat) :
  forall text s,
    length text <= k -> well_separated text s -> text_of (scan text) = s.
Proof.
  induction k as [|k IH]; intros text s Hk H.
  - destruct text; [| simpl in Hk; lia].
    inversion H as [| |d body t s0 Hb Ha H' E]; subst.
    + reflexivity.
    + pose proof (marker_length d). apply (f_equal (@length _)) in E.
      rewrite length_app in E. simpl in E. lia.
  - pose proof H as Hall.
    destruct H as [|c t s0 Hc H|d body t s0 Hb [Hne Hcl] H].
    + reflexivity.
    + rewrite scan_plain by (discriminate || apply match_at_plain; exact Hc).
      pose proof (@plain_run c t Hc) as Hrun.
      assert (B : 0 < next_special (c :: t) 0 (length (c :: t))
                  <= length (c :: t))
        by (apply next_special_bounds; simpl; lia).
      destruct (@marked_skip_plain _ _ _ _ Hall Hrun) as (s' & Es & Hs').
      rewrite text_of_app, text_of_one, Es. f_equal.
      apply IH; [| exact Hs'].
      rewrite length_skipn. lia.
    + rewrite (@scan_matched _ (kind_of d) body
                 (length (marker d) + length body + length (marker d)))
        by (apply match_at_pair; assumption).
      rewrite truthy_true by exact Hne.
      rewrite skipn_pair, text_of_app, text_of_one. f_equal.
      apply IH; [| exact H].
      pose proof (marker_length d). rewrite !length_app in Hk. lia.
Qed.

Lemma merge_step_text (merged : list Segment) (seg : Segment) :
  text_of (merge_step merged seg) = text_of merged ++ content seg.
Proof.
  unfold merge_step. destruct (truthy (content seg)) eqn:E.
  - destruct (snoc_case merged) as [-> | (l' & y & ->)].
    + simpl. destruct seg as [ty c]. apply text_of_one.
    + rewrite last_item_snoc.
      destruct (type_eqb (type seg) normal && type_eqb (type y) normal).
      * rewrite removelast_last, !text_of_app, !text_of_one.
        destruct y as [ty cy]. rewrite text_of_one. simpl.
        rewrite <- app_assoc. reflexivity.
      * rewrite text_of_app. destruct seg as [ty c].
        rewrite text_of_one. reflexivity.
  - apply truthy_false in E. rewrite E, app_nil_r. reflexivity.
Qed.

(** The merging pass keeps the text. *)
Lemma merge_text (segments : list Segment) :
  text_of (merge segments) = text_of segments.
Proof.
  unfold merge.
  assert (G : forall merged,
             text_of (fold_left merge_step segments merged)
             = text_of merged ++ text_of segments).
  { induction segments as [|s segments IH]; intros merged; simpl.
    - symmetry. apply app_nil_r.
    - rewrite IH, merge_step_text, <- app_assoc. reflexivity. }
  apply G.
Qed.

Lemma well_separated_nil (text : str) : well_separated text [] -> text = [].
Proof.
  intros H. remember [] as e eqn:Ee.
  destruct H as [|c t s0 Hc H|d body t s0 Hb [Hne Hcl] H].
  - reflexivity.
  - discriminate.
  - destruct body; [congruence | discriminate].
Qed.

(** C7, amended. For text made of plain characters and of delimiter pairs
    that enclose non-empty plain content, in which the closing marker of a
    [*...*] pair is not directly followed by [*] and that of a [_..._] pair
    not by [_], the texts of the spans the tokenizer returns, concatenated
    in order, are the text with the delimiter markers removed. *)
Theorem tokenizer_round_trip (text stripped : str) :
  well_separated text stripped ->
  text_of (_parse_inline_format text) = stripped.
Proof.
  intros H. unfold _parse_inline_format.
  pose proof (merge_text (scan text)) as M.
  rewrite (@scan_strips (length text) text stripped (le_n _) H) in M.
  destruct (merge (scan text)) as [|m ms]; simpl truthy; cbv iota.
  - simpl in M. subst stripped. apply well_separated_nil in H. subst text.
    reflexivity.
  - exact M.
Qed.

End RoundTrip.

Lemma plain_world : plain (lit "world").
Proof. repeat constructor. Qed.

(** ["Hello **world**"] strips to ["Hello world"]. *)
Lemma tokenizer_round_trip_witness :
  well_separated (lit "Hello **world**") (lit "Hello world")
  /\ text_of (_parse_inline_format (lit "Hello **world**"))
     = lit "Hello world".
Proof.
  assert (W : well_separated (lit "Hello **world**") (lit "Hello world")).
  { unfold well_separated. cbn.
    repeat (apply marked_plain; [reflexivity |]).
    exact (@marked_pair _ d_bold_star (lit "world") [] []
             plain_world (conj (fun E => @nil_cons _ _ _ (eq_sym E)) I)
             (marked_nil _)). }
  split; [exact W |].
  apply (@tokenizer_round_trip _ _ W).
Defined.

(** C7 as stated fails.  ["*a**b*"] is two italic pairs side by side and
    strips to ["ab"], but the closing [*] of the first pair is followed by
    the opening [*] of the second, the tokenizer does not take it for a
    closing marker, and the spans read ["*a*b"].  ["****"] is a bold pair
    around nothing and strips to the empty text, but the spans read
    ["****"]. *)
Lemma balanced_text_not_stripped :
  (balanced (lit "*a**b*") (lit "ab")
   /\ text_of (_parse_inline_format (lit "*a**b*")) = lit "*a*b")
  /\ (balanced (lit "****") []
      /\ text_of (_parse_inline_format (lit "****")) = lit "****").
Proof.
  split; split; try (vm_compute; reflexivity).
  - assert (Pa : plain (lit "a")) by (repeat constructor).
    assert (Pb : plain (lit "b")) by (repeat constructor).
    exact (@marked_pair _ d_italic_star (lit "a") (lit "*b*") (lit "b") Pa I
             (@marked_pair _ d_italic_star (lit "b") [] [] Pb I
                (marked_nil _))).
  - exact (@marked_pair _ d_bold_star [] [] [] (Forall_nil _) I (marked_nil _)).
Qed.

(** ** [_wrap_text] *)

Section WrapText.

Variable getbbox : Font -> str -> Z * Z * Z * Z.
Variable font : Font.
Variable max_width : Z.

Lemma truthy_snoc (A : Type) (l : list A) (x : A) : truthy (l ++ [x]) = true.
Proof. destruct l; reflexivity. Qed.

Lemma wrap_text_step_inv (seen : str) (st : list str * str) (c : char) :
  wrap_text_inv getbbox font max_width seen st ->
  wrap_text_inv getbbox font max_width (seen ++ [c])
                (wrap_text_step getbbox font max_width st c).
Proof.
  destruct st as [lines cur]. intros (Hc & Hl & He & Hk).
  unfold wrap_text_step.
  pose proof (eq_refl : text_width getbbox font (cur ++ [c])
                        = fst (_get_text_size getbbox (cur ++ [c]) font)) as Hw.
  destruct (_get_text_size getbbox (cur ++ [c]) font) as [w h].
  simpl in Hw.
  destruct (Z.leb_spec w max_width) as [Hle | Hgt].
  - repeat split.
    + rewrite app_assoc, Hc. reflexivity.
    + exact Hl.
    + intros E. destruct cur; discriminate.
    + destruct cur; discriminate.
    + right. lia.
  - repeat split.
    + destruct cur as [|a cur]; simpl.
      * rewrite app_nil_r in Hc. rewrite Hc. reflexivity.
      * rewrite concat_app. simpl. rewrite app_nil_r, <- app_assoc.
        simpl in Hc. rewrite <- Hc. rewrite <- app_assoc. reflexivity.
    + destruct cur as [|a cur]; simpl; [exact Hl |].
      apply Forall_app. split; [exact Hl |].
      constructor; [apply Hk; discriminate | constructor].
    + discriminate.
    + discriminate.
    + left. reflexivity.
Qed.

Lemma wrap_text_loop_inv (cs seen : str) (st : list str * str) :
  wrap_text_inv getbbox font max_width seen st ->
  wrap_text_inv getbbox font max_width (seen ++ cs)
                (fold_left (wrap_text_step getbbox font max_width) cs st).
Proof.
  revert seen st. induction cs as [|c cs IH]; intros seen st H; simpl.
  - rewrite app_nil_r. exact H.
  - replace (seen ++ c :: cs) with ((seen ++ [c]) ++ cs)
      by (rewrite <- app_assoc; reflexivity).
    apply IH, wrap_text_step_inv, H.
Qed.

Lemma wrap_text_result (text : str) :
  concat (_wrap_text getbbox text font max_width) = text
  /\ Forall (plain_line_ok getbbox font max_width)
            (_wrap_text getbbox text font max_width).
Proof.
  unfold _wrap_text.
  assert (H0 : wrap_text_inv getbbox font max_width [] ([], [])).
  { repeat split; try constructor; congruence. }
  pose proof (@wrap_text_loop_inv text [] ([], []) H0) as H.
  simpl app in H.
  destruct (fold_left (wrap_text_step getbbox font max_width) text ([], []))
    as [lines cur].
  destruct H as (Hc & Hl & He & Hk).
  destruct cur as [|a cur].
  - specialize (He eq_refl). rewrite He in Hc |- *. cbn [truthy].
    rewrite app_nil_r in Hc.
    destruct lines as [|l lines]; cbn [truthy].
    + split; [reflexivity | constructor].
    + split; [exact Hc | exact Hl].
  - cbn [truthy].
    assert (E : concat (lines ++ [a :: cur]) = text).
    { rewrite concat_app. simpl. rewrite app_nil_r. exact Hc. }
    assert (F : Forall (plain_line_ok getbbox font max_width)
                       (lines ++ [a :: cur])).
    { apply Forall_app. split; [exact Hl |].
      constructor; [apply Hk; discriminate | constructor]. }
    rewrite truthy_snoc. split; [exact E | exact F].
Qed.

(** X1. [_wrap_text] loses and duplicates nothing: its lines, one after the
    other, are the text, for every font metric and width. *)
Theorem wrap_text_conservation (text : str) :
  concat (_wrap_text getbbox text font max_width) = text.
Proof. destruct (wrap_text_result text) as [H _]. exact H. Qed.

(** X2. No line of [_wrap_text] is empty, and every line is a single
    character or measures, as a whole, at most [max_width]; this needs no
    assumption on the font metric. *)
Theorem wrap_text_lines_bounded (text : str) :
  Forall (plain_line_ok getbbox font max_width)
         (_wrap_text getbbox text font max_width).
Proof. destruct (wrap_text_result text) as [_ H]. exact H. Qed.

End WrapText.

(** ** The shape of wrapped lines *)

Section WrapShape.

Variable getbbox : Font -> str -> Z * Z * Z * Z.

Lemma has_adjacent_same_kind_snoc (l : list Segment) (x : Segment) :
  has_adjacent_same_kind (l ++ [x])
  = has_adjacent_same_kind l || ends_with_kind l (type x).
Proof.
  induction l as [|a l IH].
  - reflexivity.
  - destruct l as [|b l].
    + simpl. unfold ends_with_kind. simpl.
      rewrite orb_false_r. reflexivity.
    + change (has_adjacent_same_kind ((a :: b :: l) ++ [x]))
        with (type_eqb (type a) (type b)
              || has_adjacent_same_kind ((b :: l) ++ [x])).
      rewrite IH.
      change (has_adjacent_same_kind (a :: b :: l))
        with (type_eqb (type a) (type b) || has_adjacent_same_kind (b :: l)).
      unfold ends_with_kind. rewrite last_item_cons.
      apply orb_assoc.
Qed.

Lemma put_not_empty (cur : Line) (ty : SpanType) (c : str) :
  put cur ty c <> [].
Proof.
  unfold put. destruct (last_item cur) as [l|].
  - destruct (type_eqb (type l) ty); intros E;
      apply app_eq_nil in E; destruct E; discriminate.
  - intros E. apply app_eq_nil in E. destruct E. discriminate.
Qed.

Lemma put_no_adjacent (cur : Line) (ty : SpanType) (c : str) :
  has_adjacent_same_kind cur = false ->
  has_adjacent_same_kind (put cur ty c) = false.
Proof.
  intros H. unfold put.
  destruct (snoc_case cur) as [-> | (l' & y & ->)]; [reflexivity |].
  rewrite last_item_snoc.
  rewrite has_adjacent_same_kind_snoc in H.
  apply orb_false_iff in H. destruct H as [Hl' Hy].
  destruct (type_eqb (type y) ty) eqn:E.
  - apply type_eqb_eq in E. subst ty.
    rewrite removelast_last, has_adjacent_same_kind_snoc, Hl'. exact Hy.
  - rewrite !has_adjacent_same_kind_snoc, Hl', Hy. simpl.
    unfold ends_with_kind. rewrite last_item_snoc. exact E.
Qed.

Lemma flush_shape (lines : list Line) (cur : Line) :
  Forall (fun l : Line => l <> [] /\ has_adjacent_same_kind l = false) lines ->
  has_adjacent_same_kind cur = false ->
  Forall (fun l : Line => l <> [] /\ has_adjacent_same_kind l = false)
         (flush lines cur).
Proof.
  intros Hl Hc. unfold flush. destruct cur as [|s cur]; [exact Hl |].
  cbn [truthy]. apply Forall_app. split; [exact Hl |].
  constructor; [split; [discriminate | exact Hc] | constructor].
Qed.

Lemma char_step_shape ty f w (st : WrapState) (c : char) :
  wrap_shape_inv st -> wrap_shape_inv (char_step getbbox ty f w st c).
Proof.
  destruct st as [[lines cur] cw]. intros (Hl & Hc). unfold char_step.
  destruct (_get_text_size getbbox [c] f) as [char_width h].
  destruct (cw + char_width <=? w).
  - split; [exact Hl | apply put_no_adjacent, Hc].
  - split; [apply flush_shape; assumption | reflexivity].
Qed.

Lemma char_loop_shape ty f w (cs : str) (st : WrapState) :
  wrap_shape_inv st ->
  wrap_shape_inv (fold_left (char_step getbbox ty f w) cs st).
Proof.
  revert st. induction cs as [|c cs IH]; intros st H; simpl.
  - exact H.
  - apply IH, char_step_shape, H.
Qed.

Lemma seg_step_shape font w (st : WrapState) (seg : Segment) :
  wrap_shape_inv st -> wrap_shape_inv (seg_step getbbox font w st seg).
Proof.
  destruct st as [[lines cur] cw]. intros (Hl & Hc). unfold seg_step.
  destruct (_get_text_size getbbox (content seg) _) as [seg_width h].
  destruct (cw + seg_width <=? w).
  - split; [exact Hl | apply put_no_adjacent, Hc].
  - destruct (is_formatted (type seg) && (seg_width <=? w)).
    + split; [apply flush_shape; assumption | reflexivity].
    + apply char_loop_shape. split; assumption.
Qed.

Lemma seg_loop_shape font w (segs : list Segment) (st : WrapState) :
  wrap_shape_inv st ->
  wrap_shape_inv (fold_left (seg_step getbbox font w) segs st).
Proof.
  revert st. induction segs as [|s segs IH]; intros st H; simpl.
  - exact H.
  - apply IH, seg_step_shape, H.
Qed.

Lemma wrap_shape (segments : list Segment) (font : Font) (max_width : Z) :
  let lines := _wrap_formatted_text getbbox segments font max_width in
  Forall (fun l : Line => has_adjacent_same_kind l = false) lines
  /\ (lines = [[]] \/ (lines <> [] /\ Forall (fun l : Line => l <> []) lines)).
Proof.
  unfold _wrap_formatted_text.
  assert (H0 : wrap_shape_inv wrap_init) by (split; [constructor | reflexivity]).
  pose proof (@seg_loop_shape font max_width segments wrap_init H0) as H.
  destruct (fold_left (seg_step getbbox font max_width) segments wrap_init)
    as [[lines cur] cw].
  destruct H as (Hl & Hc).
  pose proof (@flush_shape lines cur Hl Hc) as Hf.
  destruct (flush lines cur) as [|l ls]; cbn [truthy].
  - split; [repeat constructor | left; reflexivity].
  - split.
    + eapply Forall_impl; [| exact Hf]. intros a [_ Ha]. exact Ha.
    + right. split; [discriminate |].
      eapply Forall_impl; [| exact Hf]. intros a [Ha _]. exact Ha.
Qed.

(** X3. Within a line of [_wrap_formatted_text] two neighbouring spans
    never have the same kind, whatever the input spans are: pieces of one
    kind that meet on a line are joined into one span. *)
Theorem wrapped_line_spans_alternate (segments : list Segment) (font : Font)
        (max_width : Z) :
  Forall (fun l : Line => has_adjacent_same_kind l = false)
         (_wrap_formatted_text getbbox segments font max_width).
Proof.
  destruct (wrap_shape segments font max_width) as [H _]. exact H.
Qed.

(** X4. [_wrap_formatted_text] returns at least one line, and no line of
    the result is empty unless the result is the single empty line
    [[[]]]. *)
Theorem wrapped_lines_not_empty (segments : list Segment) (font : Font)
        (max_width : Z) :
  _wrap_formatted_text getbbox segments font max_width = [[]]
  \/ (_wrap_formatted_text getbbox segments font max_width <> []
      /\ Forall (fun l : Line => l <> [])
                (_wrap_formatted_text getbbox segments font max_width)).
Proof.
  destruct (wrap_shape segments font max_width) as [_ H]. exact H.
Qed.

End WrapShape.

(** ** The spans the tokenizer returns *)

Section TokenizerShape.

Local Open Scope nat_scope.

Lemma merge_step_contents (merged : list Segment) (seg : Segment) :
  Forall (fun s => content s <> []) merged ->
  Forall (fun s => content s <> []) (merge_step merged seg).
Proof.
  intros H. unfold merge_step.
  destruct (truthy (content seg)) eqn:E; [| exact H].
  assert (Hs : content seg <> []) by (destruct (content seg); discriminate).
  destruct (snoc_case merged) as [-> | (l' & y & ->)].
  - simpl. constructor; [exact Hs | constructor].
  - rewrite last_item_snoc.
    destruct (type_eqb (type seg) normal && type_eqb (type y) normal).
    + rewrite removelast_last. apply Forall_app in H. destruct H as [Hl' _].
      apply Forall_app. split; [exact Hl' |].
      constructor; [| constructor]. simpl.
      intros C. apply app_eq_nil in C. destruct C. contradiction.
    + apply Forall_app. split; [exact H |].
      constructor; [exact Hs | constructor].
Qed.

Lemma merge_contents (segments : list Segment) :
  Forall (fun s => content s <> []) (merge segments).
Proof.
  unfold merge.
  assert (G : forall merged,
             Forall (fun s => content s <> []) merged ->
             Forall (fun s => content s <> [])
                    (fold_left merge_step segments merged)).
  { induction segments as [|s segments IH]; intros merged H; simpl.
    - exact H.
    - apply IH, merge_step_contents, H. }
  apply G. constructor.
Qed.

(** X5. For a text that is not empty the tokenizer returns at least one
    span and no span with empty content. *)
Theorem spans_not_empty (text : str) :
  text <> [] ->
  _parse_inline_format text <> []
  /\ Forall (fun s => content s <> []) (_parse_inline_format text).
Proof.
  intros Hne. unfold _parse_inline_format.
  pose proof (merge_contents (scan text)) as H.
  destruct (merge (scan text)) as [|m ms]; cbn [truthy].
  - split; [discriminate | constructor; [exact Hne | constructor]].
  - split; [discriminate | exact H].
Qed.

Lemma first_special_none (s : str) (pos : nat) :
  plain s -> first_special s pos = None.
Proof.
  intros H. revert pos. induction H as [|c s Hc Hs IH]; intros pos; simpl.
  - reflexivity.
  - rewrite Hc. apply IH.
Qed.

(** X6. A text without any of [*], [`], [_], [=] comes back as exactly one
    normal span holding the whole text. *)
Theorem plain_text_is_one_normal_span (text : str) :
  plain text -> _parse_inline_format text = [mkSeg normal text].
Proof.
  intros Hp. destruct text as [|c r]; [reflexivity |].
  inversion Hp as [|? ? Hc Hr]; subst.
  unfold _parse_inline_format.
  rewrite scan_plain by (discriminate || apply match_at_plain; exact Hc).
  assert (E : next_special (c :: r) 0 (length (c :: r)) = length (c :: r)).
  { unfold next_special, slice. cbn [Nat.add skipn length].
    replace (S (length r) - 1) with (length r) by lia.
    rewrite firstn_all, first_special_none by exact Hr. reflexivity. }
  rewrite E, firstn_all, skipn_all. reflexivity.
Qed.

End TokenizerShape.

Lemma spans_not_empty_witness :
  lit "a **b**" <> []
  /\ _parse_inline_format (lit "a **b**") <> []
  /\ Forall (fun s => content s <> []) (_parse_inline_format (lit "a **b**")).
Proof.
  assert (H : lit "a **b**" <> []) by discriminate.
  split; [exact H |]. exact (@spans_not_empty (lit "a **b**") H).
Defined.

Lemma plain_hello : plain (lit "Hello, world").
Proof. repeat constructor. Qed.

Lemma plain_text_is_one_normal_span_witness :
  plain (lit "Hello, world")
  /\ _parse_inline_format (lit "Hello, world")
     = [mkSeg normal (lit "Hello, world")].
Proof.
  split; [exact plain_hello |].
  exact (@plain_text_is_one_normal_span (lit "Hello, world") plain_hello).
Defined.

(** ** The characters the tokenizer keeps *)

Section PlainChars.

Local Open Scope nat_scope.

Lemma plain_chars_app (a b : str) :
  plain_chars (a ++ b) = plain_chars a ++ plain_chars b.
Proof. apply filter_app. Qed.

Lemma is_prefix_firstn (sub s : str) :
  is_prefix sub s = true -> firstn (length sub) s = sub.
Proof.
  revert s. induction sub as [|a sub IH]; intros [|b s] H; simpl in *;
    try reflexivity; try discriminate.
  destruct (char_eq_dec a b) as [->|]; [| discriminate].
  rewrite IH by exact H. reflexivity.
Qed.

Lemma find_from_prefix (sub s : str) (p e : nat) :
  find_from sub s p = Some e -> is_prefix sub (skipn (e - p) s) = true.
Proof.
  revert p. induction s as [|c s IH]; intros p H; simpl in H.
  - destruct (is_prefix sub []) eqn:E; [| discriminate].
    injection H as <-. rewrite Nat.sub_diag. exact E.
  - destruct (is_prefix sub (c :: s)) eqn:E.
    + injection H as <-. rewrite Nat.sub_diag. exact E.
    + pose proof (find_from_bounds _ _ _ H) as B.
      apply IH in H. replace (e - p) with (S (e - S p)) by lia. exact H.
Qed.

(** Where [find] reports an occurrence, there is one. *)
Lemma find_occurs (text sub : str) (start e : nat) :
  find text sub start = Some e -> slice text e (e + length sub) = sub.
Proof.
  intros H. pose proof (find_bounds _ _ _ H) as B. unfold find in H.
  destruct (start <=? length text); [| discriminate].
  apply find_from_prefix in H. rewrite skipn_skipn in H.
  replace (e - start + start) with e in H by lia.
  unfold slice. replace (e + length sub - e) with (length sub) by lia.
  apply is_prefix_firstn, H.
Qed.

Lemma firstn_add (A : Type) (a b : nat) (l : list A) :
  firstn (a + b) l = firstn a l ++ firstn b (skipn a l).
Proof.
  revert l. induction a as [|a IH]; intros l; simpl.
  - reflexivity.
  - destruct l as [|x l]; simpl.
    + rewrite firstn_nil. reflexivity.
    + rewrite IH. reflexivity.
Qed.

(** The text up to the end of a matched pair is the opening marker, the
    content and the closing marker. *)
Lemma pair_pieces (text : str) (a e k : nat) :
  a <= e ->
  firstn (e + k) text
  = slice text 0 a ++ slice text a e ++ slice text e (e + k).
Proof.
  intros H. unfold slice. cbn [skipn].
  replace (e + k - e) with k by lia. rewrite Nat.sub_0_r.
  rewrite firstn_add. rewrite app_assoc. f_equal.
  replace e with (a + (e - a)) at 1 by lia. apply firstn_add.
Qed.

Lemma str_eqb_true (a b : str) : str_eqb a b = true -> a = b.
Proof. unfold str_eqb. destruct (str_eq_dec a b); [auto | discriminate]. Qed.

Lemma match_pair_plain_chars (m : str) (ty0 : SpanType) (text : str) (n : nat)
      (ty : SpanType) (c : str) (i' : nat) :
  plain_chars m = [] ->
  match_pair m ty0 text 0 n = Some (ty, c, i') ->
  plain_chars (firstn i' text) = plain_chars c.
Proof.
  intros Hm. unfold match_pair. cbn [Nat.add].
  destruct (2 * length m <=? n); [| discriminate]. cbn [andb].
  destruct (str_eqb (slice text 0 (length m)) m) eqn:E; [| discriminate].
  apply str_eqb_true in E.
  destruct (find text m (length m)) as [e|] eqn:F; [| discriminate].
  intros H. injection H as <- <- <-.
  pose proof (find_bounds _ _ _ F) as B. apply find_occurs in F.
  rewrite (@pair_pieces text (length m) e (length m)) by lia.
  rewrite E, F, !plain_chars_app, Hm, app_nil_r. reflexivity.
Qed.

Lemma char_is_slice (text : str) (x : string) :
  char_is text 0 x = true -> slice text 0 1 = lit x.
Proof.
  unfold char_is, char_at, slice. destruct text as [|a r]; simpl;
    [discriminate |].
  intros H. apply str_eqb_true in H. rewrite <- H. reflexivity.
Qed.

Lemma match_italic_star_plain_chars text n ty c i' :
  match_italic_star text 0 n = Some (ty, c, i') ->
  plain_chars (firstn i' text) = plain_chars c.
Proof.
  unfold match_italic_star. cbn [Nat.add].
  destruct (2 <=? n); [| discriminate]. cbn [andb].
  destruct (char_is text 0 "*") eqn:E; [| discriminate]. cbn [andb].
  destruct (negb (str_eqb (slice text 0 2) (lit "**"))); [| discriminate].
  destruct (find text (lit "*") 1) as [e|] eqn:F; [| discriminate].
  destruct (negb (str_eqb (slice text e (e + 2)) (lit "**")));
    [| discriminate].
  intros H. injection H as <- <- <-.
  pose proof (find_bounds _ _ _ F) as B. apply find_occurs in F.
  apply char_is_slice in E.
  rewrite (@pair_pieces text 1 e 1) by lia.
  change (length (lit "*")) with 1 in F.
  rewrite E, F, !plain_chars_app.
  change (plain_chars (lit "*")) with (@nil char).
  rewrite app_nil_r. reflexivity.
Qed.

Lemma match_italic_under_plain_chars text n ty c i' :
  match_italic_under text 0 n = Some (ty, c, i') ->
  plain_chars (firstn i' text) = plain_chars c.
Proof.
  unfold match_italic_under. cbn [Nat.add].
  destruct (char_is text 0 "_") eqn:E; [| discriminate]. cbn [andb].
  destruct (negb (str_eqb (slice text 0 2) (lit "__"))); [| discriminate].
  destruct (find text (lit "_") 1) as [e|] eqn:F; [| discriminate].
  destruct (negb (str_eqb (slice text e (e + 2)) (lit "__")));
    [| discriminate].
  intros H. injection H as <- <- <-.
  pose proof (find_bounds _ _ _ F) as B. apply find_occurs in F.
  apply char_is_slice in E.
  rewrite (@pair_pieces text 1 e 1) by lia.
  change (length (lit "_")) with 1 in F.
  rewrite E, F, !plain_chars_app.
  change (plain_chars (lit "_")) with (@nil char).
  rewrite app_nil_r. reflexivity.
Qed.

Lemma match_code_plain_chars text n ty c i' :
  match_code text 0 n = Some (ty, c, i') ->
  plain_chars (firstn i' text) = plain_chars c.
Proof.
  unfold match_code. cbn [Nat.add].
  destruct (char_is text 0 "`") eqn:E; [| discriminate].
  destruct (find text (lit "`") 1) as [e|] eqn:F; [| discriminate].
  intros H. injection H as <- <- <-.
  pose proof (find_bounds _ _ _ F) as B. apply find_occurs in F.
  apply char_is_slice in E.
  rewrite (@pair_pieces text 1 e 1) by lia.
  change (length (lit "`")) with 1 in F.
  rewrite E, F, !plain_chars_app.
  change (plain_chars (lit "`")) with (@nil char).
  rewrite app_nil_r. reflexivity.
Qed.

(** Whatever pair is matched at the start of a text, the plain characters up
    to its end are those of its content. *)
Lemma match_at_plain_chars text n ty c i' :
  match_at text 0 n = Some (ty, c, i') ->
  plain_chars (firstn i' text) = plain_chars c.
Proof.
  unfold match_at.
  rewrite match_bold_italic_pair, match_bold_star_pair, match_highlight_pair,
    match_bold_under_pair.
  unfold or_else.
  destruct (match_pair (lit "***") bold_italic text 0 n) as [m|] eqn:E1.
  { intros H. injection H as ->.
    eapply match_pair_plain_chars; [| exact E1]. reflexivity. }
  destruct (match_pair (lit "**") bold text 0 n) as [m|] eqn:E2.
  { intros H. injection H as ->.
    eapply match_pair_plain_chars; [| exact E2]. reflexivity. }
  destruct (match_italic_star text 0 n) as [m|] eqn:E3.
  { intros H. injection H as ->. apply (match_italic_star_plain_chars _ _ E3). }
  destruct (match_code text 0 n) as [m|] eqn:E4.
  { intros H. injection H as ->. apply (match_code_plain_chars _ _ E4). }
  destruct (match_pair (lit "==") highlight text 0 n) as [m|] eqn:E5.
  { intros H. injection H as ->.
    eapply match_pair_plain_chars; [| exact E5]. reflexivity. }
  destruct (match_pair (lit "__") bold text 0 n) as [m|] eqn:E6.
  { intros H. injection H as ->.
    eapply match_pair_plain_chars; [| exact E6]. reflexivity. }
  intros H. apply (match_italic_under_plain_chars _ _ H).
Qed.

Lemma loop_body_plain_chars (text : str) :
  plain_chars
    (firstn (fst (loop_body text (length text) (0, []))) text)
  = plain_chars (text_of (snd (loop_body text (length text) (0, [])))).
Proof.
  unfold loop_body.
  destruct (match_at text 0 (length text)) as [[[ty c] i']|] eqn:E;
    cbn [fst snd].
  - rewrite (match_at_plain_chars _ _ E).
    destruct c as [|a c]; cbn [truthy app]; [reflexivity |].
    rewrite text_of_one. reflexivity.
  - cbn [app]. rewrite text_of_one. unfold slice. cbn [skipn].
    rewrite Nat.sub_0_r. reflexivity.
Qed.

Lemma scan_plain_chars (k : nat) :
  forall text,
    length text <= k -> plain_chars (text_of (scan text)) = plain_chars text.
Proof.
  induction k as [|k IH]; intros text Hk.
  - destruct text; [reflexivity | simpl in Hk; lia].
  - destruct text as [|a r]; [reflexivity |].
    rewrite scan_unfold by discriminate.
    assert (Hlt : 0 < length (a :: r)) by (simpl; lia).
    pose proof (loop_body_advances (a :: r) [] Hlt) as Hadv.
    pose proof (loop_body_plain_chars (a :: r)) as Hpc.
    destruct (loop_body (a :: r) (length (a :: r)) (0, [])) as [i1 new1].
    cbn [fst snd] in *.
    rewrite text_of_app, plain_chars_app, <- Hpc, IH.
    + rewrite <- plain_chars_app, firstn_skipn. reflexivity.
    + rewrite length_skipn. lia.
Qed.

(** X7. Whatever the text, balanced or not, the tokenizer drops nothing
    but characters among [*], [`], [_], [=]: the other characters of the
    spans, read in order, are those of the text. *)
Theorem tokenizer_keeps_plain_characters (text : str) :
  plain_chars (text_of (_parse_inline_format text)) = plain_chars text.
Proof.
  unfold _parse_inline_format.
  pose proof (merge_text (scan text)) as M.
  destruct (merge (scan text)) as [|m ms]; cbn [truthy].
  - rewrite text_of_one. reflexivity.
  - rewrite M. apply (@scan_plain_chars (length text)). lia.
Qed.

End PlainChars.

(** ** The pages of the paginator *)

Section Pages.

Variable style : Style.StyleConfig.
Variable getbbox : Font -> str -> Z * Z * Z * Z.

Lemma estimated_total_snoc (blocks : list Element) (e : Element) :
  estimated_total style getbbox (blocks ++ [e])
  = estimated_total style getbbox blocks
    + _calculate_element_height style getbbox e (content_width_of style).
Proof.
  induction blocks as [|b blocks IH].
  - simpl. lia.
  - change (estimated_total style getbbox ((b :: blocks) ++ [e]))
      with (_calculate_element_height style getbbox b (content_width_of style)
            + estimated_total style getbbox (blocks ++ [e])).
    change (estimated_total style getbbox (b :: blocks))
      with (_calculate_element_height style getbbox b (content_width_of style)
            + estimated_total style getbbox blocks).
    rewrite IH. lia.
Qed.

Lemma page_numbers_snoc (k : nat) :
  page_numbers k ++ [Z.of_nat k + 1] = page_numbers (S k).
Proof.
  unfold page_numbers. rewrite seq_S, map_app. simpl.
  f_equal. f_equal. lia.
Qed.

Lemma render_step_inv (st : PageState) (e : Element) :
  page_inv style getbbox st ->
  page_inv style getbbox
           (render_step style getbbox (content_width_of style)
                        (max_content_height_of style) st e).
Proof.
  destruct st as [[[saved page_num] current_y] pe].
  intros (Hs & Hn & Hp & Hy & Hf). unfold render_step.
  set (h := _calculate_element_height style getbbox e (content_width_of style)).
  destruct (Z.gtb_spec (current_y + h) (max_content_height_of style))
    as [Hgt | Hle].
  - destruct pe as [|p ps]; cbn [truthy].
    + repeat split; try assumption.
      * simpl. fold h. lia.
      * right. left. reflexivity.
    + destruct Hf as [Hf | Hf]; [discriminate |].
      repeat split.
      * apply Forall_app. split; [exact Hs |].
        constructor; [split; [discriminate | exact Hf] | constructor].
      * unfold Page in *. rewrite map_app, length_app, Hn. simpl.
        rewrite Nat.add_1_r, Hp. apply page_numbers_snoc.
      * rewrite length_app. simpl. lia.
      * simpl. fold h. lia.
      * right. left. reflexivity.
  - repeat split; try assumption.
    + rewrite estimated_total_snoc. fold h. lia.
    + right. destruct pe as [|p ps].
      * left. reflexivity.
      * right. rewrite estimated_total_snoc. fold h. lia.
Qed.

Lemma render_loop_inv (elements : list Element) (st : PageState) :
  page_inv style getbbox st ->
  page_inv style getbbox
           (fold_left (render_step style getbbox (content_width_of style)
                                   (max_content_height_of style))
                      elements st).
Proof.
  revert st. induction elements as [|e es IH]; intros st H; simpl.
  - exact H.
  - apply IH, render_step_inv, H.
Qed.

Lemma render_pages (elements : list Element) :
  Forall (fun p : Page => fst p <> [] /\ page_fits style getbbox (fst p))
         (render style getbbox elements)
  /\ List.map snd (render style getbbox elements)
     = page_numbers (length (render style getbbox elements)).
Proof.
  unfold render.
  fold (content_width_of style). fold (max_content_height_of style).
  assert (H0 : page_inv style getbbox ([], 1, Style.margin_top style, [])).
  { repeat split; try constructor. simpl. lia. reflexivity. }
  pose proof (@render_loop_inv elements _ H0) as H.
  destruct (fold_left _ elements _) as [[[saved page_num] current_y] pe].
  destruct H as (Hs & Hn & Hp & Hy & Hf).
  destruct pe as [|p ps]; cbn [truthy].
  - split; assumption.
  - destruct Hf as [Hf | Hf]; [discriminate |]. split.
    + apply Forall_app. split; [exact Hs |].
      constructor; [split; [discriminate | exact Hf] | constructor].
    + unfold Page in *. rewrite map_app, length_app, Hn. simpl.
      rewrite Nat.add_1_r, Hp. apply page_numbers_snoc.
Qed.

(** X8. [render] never saves an empty page, and it numbers the pages
    1, 2, 3, ... in the order it saves them. *)
Theorem pages_not_empty_and_numbered (elements : list Element) :
  Forall (fun p : Page => fst p <> []) (render style getbbox elements)
  /\ List.map snd (render style getbbox elements)
     = page_numbers (length (render style getbbox elements)).
Proof.
  destruct (render_pages elements) as [H1 H2]. split; [| exact H2].
  eapply Forall_impl; [| exact H1]. intros p [Hp _]. exact Hp.
Qed.

(** X9. Every page holds a single block, or the estimated heights of its
    blocks, added to the top margin, stay within
    [height - (margin_bottom + 20)]. *)
Theorem pages_fit_usable_height (elements : list Element) :
  Forall (fun p : Page => page_fits style getbbox (fst p))
         (render style getbbox elements).
Proof.
  destruct (render_pages elements) as [H1 _].
  eapply Forall_impl; [| exact H1]. intros p [_ Hp]. exact Hp.
Qed.

Lemma render_loop_one_page (rest : list Element) :
  forall (current_y : Z) (pe : list Element),
    Forall (fun e =>
              0 <= _calculate_element_height style getbbox e
                     (content_width_of style)) rest ->
    current_y + estimated_total style getbbox rest
    <= max_content_height_of style ->
    fold_left (render_step style getbbox (content_width_of style)
                           (max_content_height_of style))
              rest ([], 1, current_y, pe)
    = ([], 1, current_y + estimated_total style getbbox rest, pe ++ rest).
Proof.
  induction rest as [|e rest IH]; intros current_y pe Hpos Hfit.
  - simpl. rewrite app_nil_r, Z.add_0_r. reflexivity.
  - inversion Hpos as [|? ? He Hrest]; subst.
    change (estimated_total style getbbox (e :: rest))
      with (_calculate_element_height style getbbox e (content_width_of style)
            + estimated_total style getbbox rest) in *.
    assert (Hr : 0 <= estimated_total style getbbox rest).
    { clear - Hrest. induction Hrest as [|x l Hx Hl IHl]; [simpl; lia |].
      change (estimated_total style getbbox (x :: l))
        with (_calculate_element_height style getbbox x
                (content_width_of style)
              + estimated_total style getbbox l).
      lia. }
    cbn [fold_left]. unfold render_step at 2.
    destruct (Z.gtb_spec
                (current_y
                 + _calculate_element_height style getbbox e
                     (content_width_of style))
                (max_content_height_of style)) as [Hgt | Hle]; [lia |].
    rewrite IH by (assumption || lia).
    rewrite <- app_assoc, Z.add_assoc. reflexivity.
Qed.

(** X10. When no estimate is negative and the top margin plus all
    estimates is within the usable height, a document with at least one
    block is put on one page, numbered 1, with all blocks in order. *)
Theorem one_page_when_all_fits (elements : list Element) :
  elements <> [] ->
  Forall (fun e =>
            0 <= _calculate_element_height style getbbox e
                   (content_width_of style)) elements ->
  Style.margin_top style + estimated_total style getbbox elements
  <= max_content_height_of style ->
  render style getbbox elements = [(elements, 1)].
Proof.
  intros Hne Hpos Hfit. unfold render.
  fold (content_width_of style). fold (max_content_height_of style).
  rewrite render_loop_one_page by assumption.
  destruct elements as [|e es]; [congruence | reflexivity].
Qed.

End Pages.

Lemma one_page_when_all_fits_witness :
  render Style.default mono_bbox
         [E_h1 (lit "Title"); E_paragraph (lit "Hello **world**"); E_hr]
  = [([E_h1 (lit "Title"); E_paragraph (lit "Hello **world**"); E_hr], 1)].
Proof.
  apply one_page_when_all_fits.
  - discriminate.
  - repeat constructor; vm_compute; discriminate.
  - vm_compute. discriminate.
Defined.

(** ** What is drawn *)

Section Drawing.

Variable style : Style.StyleConfig.
Variable getbbox : Font -> str -> Z * Z * Z * Z.

Lemma drawn_text_app (a b : list DrawOp) :
  drawn_text (a ++ b) = drawn_text a ++ drawn_text b.
Proof. unfold drawn_text. rewrite map_app, concat_app. reflexivity. Qed.

Lemma render_seg_step_text fonts colors y (st : Z * Z * list DrawOp)
      (seg : Segment) :
  drawn_text (snd (render_seg_step style getbbox fonts colors y st seg))
  = drawn_text (snd st) ++ content seg.
Proof.
  destruct st as [[cx mh] ops]. unfold render_seg_step.
  destruct (_get_text_size getbbox (content seg) _) as [w h]. cbn [snd].
  destruct (type_eqb (type seg) highlight);
    destruct (type_eqb (type seg) code);
    rewrite ?drawn_text_app; unfold drawn_text; simpl;
    rewrite ?app_nil_r; reflexivity.
Qed.

Lemma render_text_line_text x y (segments : list Segment) fonts colors :
  drawn_text (snd (_render_text_line style getbbox x y segments fonts colors))
  = text_of segments.
Proof.
  unfold _render_text_line.
  assert (G : forall st,
             drawn_text
               (snd (fold_left (render_seg_step style getbbox fonts colors y)
                               segments st))
             = drawn_text (snd st) ++ text_of segments).
  { induction segments as [|s segments IH]; intros st; simpl.
    - symmetry. apply app_nil_r.
    - rewrite IH, render_seg_step_text, <- app_assoc. reflexivity. }
  specialize (G (x, 0, [])).
  destruct (fold_left _ segments (x, 0, [])) as [[cx mh] ops].
  exact G.
Qed.

Lemma draw_formatted_lines_text fonts colors x (lines : list Line) (y : Z) :
  drawn_text (snd (draw_formatted_lines style getbbox fonts colors x lines y))
  = text_of (concat lines).
Proof.
  unfold draw_formatted_lines.
  assert (G : forall y ops,
             drawn_text
               (snd (fold_left
                       (fun '(y, ops) line_segments =>
                          (y + Style.body_line_spacing style,
                           ops ++ snd (_render_text_line style getbbox x y
                                         line_segments fonts colors)))
                       lines (y, ops)))
             = drawn_text ops ++ text_of (concat lines)).
  { induction lines as [|l lines IH]; intros y0 ops.
    - simpl. symmetry. apply app_nil_r.
    - cbn [fold_left concat]. rewrite IH, drawn_text_app,
        render_text_line_text, text_of_app, <- app_assoc. reflexivity. }
  apply (G y []).
Qed.

Lemma draw_plain_lines_text x font fill spacing (lines : list str) (y : Z) :
  drawn_text (snd (draw_plain_lines x font fill spacing lines y))
  = concat lines.
Proof.
  unfold draw_plain_lines.
  assert (G : forall y ops,
             drawn_text
               (snd (fold_left
                       (fun '(y, ops) line =>
                          (y + spacing,
                           ops ++ [draw_text x y line font fill]))
                       lines (y, ops)))
             = drawn_text ops ++ concat lines).
  { induction lines as [|l lines IH]; intros y0 ops.
    - simpl. symmetry. apply app_nil_r.
    - cbn [fold_left concat]. rewrite IH, drawn_text_app, <- app_assoc.
      f_equal. unfold drawn_text. simpl. rewrite app_nil_r. reflexivity. }
  apply (G y []).
Qed.

(** The wrapper keeps the text (the fact behind C5, for use here). *)
Lemma wrap_text_of (segments : list Segment) (font : Font) (max_width : Z) :
  text_of (concat (_wrap_formatted_text getbbox segments font max_width))
  = text_of segments.
Proof.
  unfold _wrap_formatted_text.
  pose proof (seg_loop_text getbbox font max_width segments wrap_init) as H.
  destruct (fold_left (seg_step getbbox font max_width) segments wrap_init)
    as [[lines cur] cw].
  simpl in H.
  assert (E : text_of (concat (flush lines cur)) = text_of segments)
    by (rewrite flush_concat; exact H).
  destruct (flush lines cur) as [|l ls]; exact E.
Qed.

Lemma with_prefix_text (prefix : str) (segments : list Segment) :
  text_of (with_prefix prefix segments) = prefix ++ text_of segments.
Proof.
  unfold with_prefix. destruct segments as [|s0 rest].
  - unfold text_of. simpl. reflexivity.
  - destruct (type_eqb (type s0) normal).
    + unfold text_of. simpl. rewrite <- app_assoc. reflexivity.
    + unfold text_of. simpl. reflexivity.
Qed.

Lemma render_item_text fonts colors x max_width prefix
      (st : Z * list DrawOp) (item : str) :
  drawn_text (snd (render_item style getbbox fonts colors x max_width prefix
                               st item))
  = drawn_text (snd st) ++ prefix ++ text_of (_parse_inline_format item).
Proof.
  destruct st as [y ops]. unfold render_item.
  pose proof (draw_formatted_lines_text fonts colors x
                (_wrap_formatted_text getbbox
                   (with_prefix prefix (_parse_inline_format item))
                   font_body max_width) y) as H.
  destruct (draw_formatted_lines _ _ _ _ _ _ _) as [y' ops'].
  cbn [snd] in *. rewrite drawn_text_app, H, wrap_text_of, with_prefix_text.
  reflexivity.
Qed.

Lemma render_item_y fonts colors x max_width prefix
      (st : Z * list DrawOp) (item : str) :
  fst (render_item style getbbox fonts colors x max_width prefix st item)
  = fst st
    + Z.of_nat (length (_wrap_formatted_text getbbox
                          (with_prefix prefix (_parse_inline_format item))
                          font_body max_width))
      * Style.body_line_spacing style
    + 10.
Proof.
  destruct st as [y ops]. unfold render_item.
  pose proof (draw_formatted_lines_y style getbbox fonts colors x
                (_wrap_formatted_text getbbox
                   (with_prefix prefix (_parse_inline_format item))
                   font_body max_width) y) as H.
  destruct (draw_formatted_lines _ _ _ _ _ _ _) as [y' ops'].
  cbn [fst] in *. lia.
Qed.

End Drawing.

Section Rendering.

Variable style : Style.StyleConfig.
Variable getbbox : Font -> str -> Z * Z * Z * Z.

Lemma items_text fonts colors x max_width (prefix : str) (items : list str) :
  forall st,
    drawn_text
      (snd (fold_left (render_item style getbbox fonts colors x max_width
                                   prefix) items st))
    = drawn_text (snd st)
      ++ concat (List.map
                   (fun item => prefix ++ text_of (_parse_inline_format item))
                   items).
Proof.
  induction items as [|item items IH]; intros st; simpl.
  - symmetry. apply app_nil_r.
  - rewrite IH, render_item_text, <- !app_assoc. reflexivity.
Qed.

Lemma numbered_items_text fonts colors x max_width
      (items : list (nat * str)) :
  forall st,
    drawn_text
      (snd (fold_left
              (fun st '(i, item) =>
                 render_item style getbbox fonts colors x max_width
                             (decimal (i + 1)%nat ++ lit ". ") st item)
              items st))
    = drawn_text (snd st)
      ++ concat (List.map
                   (fun '(i, item) =>
                      (decimal (i + 1)%nat ++ lit ". ")
                      ++ text_of (_parse_inline_format item))
                   items).
Proof.
  induction items as [|[i item] items IH]; intros st; simpl.
  - symmetry. apply app_nil_r.
  - rewrite IH, render_item_text, <- !app_assoc. reflexivity.
Qed.

(** Block by block: what is drawn is what the wrappers were given. *)
Lemma render_element_text (element : Element) (x y max_width : Z) :
  drawn_text (snd (_render_element style getbbox element x y max_width))
  = element_text element.
Proof.
  destruct element as [c|c|c|c|c lang|c|items|items| |ty];
    cbn [_render_element element_text].
  - pose proof (draw_plain_lines_text x font_h1 (Style.title_color style)
                  (Style.h1_line_spacing style)
                  (_wrap_text getbbox c font_h1 max_width) y) as H.
    destruct (draw_plain_lines _ _ _ _ _ _) as [y' ops]. cbn [snd] in *.
    rewrite H. apply wrap_text_result.
  - pose proof (draw_plain_lines_text x font_h2 (Style.title_color style)
                  (Style.h2_line_spacing style)
                  (_wrap_text getbbox c font_h2 max_width) y) as H.
    destruct (draw_plain_lines _ _ _ _ _ _) as [y' ops]. cbn [snd] in *.
    rewrite H. apply wrap_text_result.
  - pose proof (draw_plain_lines_text x font_h3 (Style.title_color style)
                  (Style.h3_line_spacing style)
                  (_wrap_text getbbox c font_h3 max_width) y) as H.
    destruct (draw_plain_lines _ _ _ _ _ _) as [y' ops]. cbn [snd] in *.
    rewrite H. apply wrap_text_result.
  - match goal with
    | |- context [draw_formatted_lines ?s ?g ?f ?cl ?xx ?ls ?yy] =>
        pose proof (draw_formatted_lines_text s g f cl xx ls yy) as H;
        destruct (draw_formatted_lines s g f cl xx ls yy) as [y' ops]
    end.
    cbn [snd] in *. rewrite H. apply wrap_text_of.
  - match goal with
    | |- context [draw_plain_lines ?xx ?f ?fl ?sp ?ls ?yy] =>
        pose proof (draw_plain_lines_text xx f fl sp ls yy) as H;
        destruct (draw_plain_lines xx f fl sp ls yy) as [y' ops]
    end.
    cbn [snd] in *. unfold drawn_text in *. simpl. exact H.
  - match goal with
    | |- context [draw_formatted_lines ?s ?g ?f ?cl ?xx ?ls ?yy] =>
        pose proof (draw_formatted_lines_text s g f cl xx ls yy) as H;
        destruct (draw_formatted_lines s g f cl xx ls yy) as [y' ops]
    end.
    cbn [snd] in *. unfold drawn_text in *. simpl.
    unfold drawn_text in H. rewrite H. apply wrap_text_of.
  - match goal with
    | |- context [fold_left ?f items ?st] =>
        pose proof (items_text
                      (mkFonts font_body font_bold font_code)
                      [(normal, Style.text_color style);
                       (bold, Style.text_color style);
                       (italic, Style.text_color style);
                       (code, (200, 50, 80));
                       (highlight, Style.highlight_text style)]
                      x max_width bullet items st) as H;
        destruct (fold_left f items st) as [y' ops]
    end.
    cbn [snd] in *. exact H.
  - match goal with
    | |- context [fold_left ?f (enumerate items) ?st] =>
        pose proof (numbered_items_text
                      (mkFonts font_body font_bold font_code)
                      [(normal, Style.text_color style);
                       (bold, Style.text_color style);
                       (italic, Style.text_color style);
                       (code, (200, 50, 80));
                       (highlight, Style.highlight_text style)]
                      x max_width (enumerate items) st) as H;
        destruct (fold_left f (enumerate items) st) as [y' ops]
    end.
    cbn [snd] in *. exact H.
  - reflexivity.
  - reflexivity.
Qed.

(** X11. The texts [_render_element] hands to [draw.text], one after the
    other, are the text of the block as the tokenizer returned it: the
    heading or code text, the contents of the spans of a paragraph or quote,
    the contents of the spans of each item behind its bullet or number.
    Wrapping and drawing lose and duplicate nothing of these spans. *)
Theorem rendered_text_is_element_text (element : Element)
        (x y max_width : Z) :
  drawn_text (snd (_render_element style getbbox element x y max_width))
  = element_text element.
Proof. exact (render_element_text element x y max_width). Qed.

End Rendering.

(** ** Where blocks are drawn *)

Section Advance.

Variable style : Style.StyleConfig.
Variable getbbox : Font -> str -> Z * Z * Z * Z.

Lemma items_y fonts colors max_width (prefix_of : nat -> str)
      (items : list (nat * str)) :
  forall x x' (st st' : Z * list DrawOp),
    fst (fold_left
           (fun st '(i, item) =>
              render_item style getbbox fonts colors x max_width
                          (prefix_of i) st item)
           items st) - fst st
    = fst (fold_left
             (fun st '(i, item) =>
                render_item style getbbox fonts colors x' max_width
                            (prefix_of i) st item)
             items st') - fst st'.
Proof.
  induction items as [|[i item] items IH]; intros x x' st st'; simpl.
  - lia.
  - pose proof (IH x x'
                  (render_item style getbbox fonts colors x max_width
                               (prefix_of i) st item)
                  (render_item style getbbox fonts colors x' max_width
                               (prefix_of i) st' item)) as H.
    rewrite !render_item_y in H. lia.
Qed.

Lemma plain_items_y fonts colors max_width (prefix : str)
      (items : list str) :
  forall x x' (st st' : Z * list DrawOp),
    fst (fold_left (render_item style getbbox fonts colors x max_width prefix)
                   items st) - fst st
    = fst (fold_left
             (render_item style getbbox fonts colors x' max_width prefix)
             items st') - fst st'.
Proof.
  induction items as [|item items IH]; intros x x' st st'; simpl.
  - lia.
  - pose proof (IH x x'
                  (render_item style getbbox fonts colors x max_width
                               prefix st item)
                  (render_item style getbbox fonts colors x' max_width
                               prefix st' item)) as H.
    rewrite !render_item_y in H. lia.
Qed.

(** The vertical space a block takes does not depend on where it is
    drawn. *)
Lemma rendered_height_anywhere (element : Element) (x y x' y' max_width : Z) :
  rendered_height style getbbox element x y max_width
  = rendered_height style getbbox element x' y' max_width.
Proof.
  unfold rendered_height.
  destruct element as [c|c|c|c|c lang|c|items|items| |ty];
    cbn [_render_element].
  - pose proof (draw_plain_lines_y x font_h1 (Style.title_color style)
                  (Style.h1_line_spacing style)
                  (_wrap_text getbbox c font_h1 max_width) y) as H.
    pose proof (draw_plain_lines_y x' font_h1 (Style.title_color style)
                  (Style.h1_line_spacing style)
                  (_wrap_text getbbox c font_h1 max_width) y') as H'.
    destruct (draw_plain_lines x _ _ _ _ y) as [y1 ops1].
    destruct (draw_plain_lines x' _ _ _ _ y') as [y2 ops2].
    cbn [fst] in *. lia.
  - pose proof (draw_plain_lines_y x font_h2 (Style.title_color style)
                  (Style.h2_line_spacing style)
                  (_wrap_text getbbox c font_h2 max_width) y) as H.
    pose proof (draw_plain_lines_y x' font_h2 (Style.title_color style)
                  (Style.h2_line_spacing style)
                  (_wrap_text getbbox c font_h2 max_width) y') as H'.
    destruct (draw_plain_lines x _ _ _ _ y) as [y1 ops1].
    destruct (draw_plain_lines x' _ _ _ _ y') as [y2 ops2].
    cbn [fst] in *. lia.
  - pose proof (draw_plain_lines_y x font_h3 (Style.title_color style)
                  (Style.h3_line_spacing style)
                  (_wrap_text getbbox c font_h3 max_width) y) as H.
    pose proof (draw_plain_lines_y x' font_h3 (Style.title_color style)
                  (Style.h3_line_spacing style)
                  (_wrap_text getbbox c font_h3 max_width) y') as H'.
    destruct (draw_plain_lines x _ _ _ _ y) as [y1 ops1].
    destruct (draw_plain_lines x' _ _ _ _ y') as [y2 ops2].
    cbn [fst] in *. lia.
  - repeat match goal with
    | |- context [draw_formatted_lines ?s ?g ?f ?cl ?xx ?ls ?yy] =>
        let H := fresh "H" in
        pose proof (draw_formatted_lines_y s g f cl xx ls yy) as H;
        destruct (draw_formatted_lines s g f cl xx ls yy)
    end.
    cbn [fst] in *. lia.
  - repeat match goal with
    | |- context [draw_plain_lines ?xx ?f ?fl ?sp ?ls ?yy] =>
        destruct (draw_plain_lines xx f fl sp ls yy)
    end.
    cbn [fst]. lia.
  - repeat match goal with
    | |- context [draw_formatted_lines ?s ?g ?f ?cl ?xx ?ls ?yy] =>
        destruct (draw_formatted_lines s g f cl xx ls yy)
    end.
    cbn [fst]. lia.
  - match goal with
    | |- context [fold_left ?f items (y, [])] =>
        pose proof (plain_items_y
                      (mkFonts font_body font_bold font_code)
                      [(normal, Style.text_color style);
                       (bold, Style.text_color style);
                       (italic, Style.text_color style);
                       (code, (200, 50, 80));
                       (highlight, Style.highlight_text style)]
                      max_width bullet items x x' (y, []) (y', [])) as H
    end.
    cbn [fst] in H.
    destruct (fold_left _ items (y, [])) as [y1 ops1].
    destruct (fold_left _ items (y', [])) as [y2 ops2].
    cbn [fst] in *. lia.
  - match goal with
    | |- context [fold_left ?f (enumerate items) (y, [])] =>
        pose proof (items_y
                      (mkFonts font_body font_bold font_code)
                      [(normal, Style.text_color style);
                       (bold, Style.text_color style);
                       (italic, Style.text_color style);
                       (code, (200, 50, 80));
                       (highlight, Style.highlight_text style)]
                      max_width
                      (fun i => decimal (i + 1)%nat ++ lit ". ")
                      (enumerate items) x x' (y, []) (y', [])) as H
    end.
    cbn [fst] in H.
    destruct (fold_left _ (enumerate items) (y, [])) as [y1 ops1].
    destruct (fold_left _ (enumerate items) (y', [])) as [y2 ops2].
    cbn [fst] in *. lia.
  - simpl. lia.
  - simpl. lia.
Qed.

Lemma save_page_loop (elements : list Element) :
  forall (y : Z) (ops : list DrawOp),
    fst (fold_left
           (fun '(y, ops) element =>
              let '(y', ops') :=
                _render_element style getbbox element
                                (Style.margin_left style) y
                                (content_width_of style) in
              (y', ops ++ ops'))
           elements (y, ops))
    = y + rendered_total style getbbox elements.
Proof.
  induction elements as [|e es IH]; intros y ops.
  - simpl. lia.
  - cbn [fold_left].
    pose proof (rendered_height_anywhere e (Style.margin_left style) y 0 0
                  (content_width_of style)) as H.
    unfold rendered_height at 1 in H.
    destruct (_render_element style getbbox e (Style.margin_left style) y
                              (content_width_of style)) as [y1 ops1].
    cbn [fst] in H. rewrite IH.
    change (rendered_total style getbbox (e :: es))
      with (rendered_height style getbbox e 0 0 (content_width_of style)
            + rendered_total style getbbox es).
    lia.
Qed.

(** X12. The vertical space [_render_element] takes for a block depends on
    the block and the width only, not on the position it is drawn at. *)
Theorem rendered_height_position_independent (element : Element)
        (x y x' y' max_width : Z) :
  rendered_height style getbbox element x y max_width
  = rendered_height style getbbox element x' y' max_width.
Proof.
  rewrite (rendered_height_anywhere element x y 0 0 max_width).
  rewrite (rendered_height_anywhere element x' y' 0 0 max_width).
  reflexivity.
Qed.

(** X13. The y coordinate [_save_page] ends at is the top margin plus the
    rendered heights of the blocks of the page. *)
Theorem save_page_bottom (elements : list Element) :
  fst (_save_page style getbbox elements)
  = Style.margin_top style + rendered_total style getbbox elements.
Proof. unfold _save_page. apply save_page_loop. Qed.



End Advance.

(** ** Lines added by the preprocessing, sign of the estimate *)

Section Newlines.

Lemma split_cons (sep : char) (s : str) :
  exists h t, split sep s = h :: t.
Proof.
  induction s as [|c s (h & t & IH)]; simpl.
  - eauto.
  - destruct (char_eq_dec c sep); [eauto |]. rewrite IH. eauto.
Qed.

Lemma split_newline (s : str) : split newline (newline :: s) = [] :: split newline s.
Proof. simpl. destruct (char_eq_dec newline newline); congruence. Qed.

Lemma split_other (c : char) (s h : str) (t : list str) :
  c <> newline -> split newline s = h :: t ->
  split newline (c :: s) = (c :: h) :: t.
Proof.
  intros Hc E. simpl. destruct (char_eq_dec c newline); [contradiction |].
  rewrite E. reflexivity.
Qed.

(** The substitution keeps the first line, and the lines after it with
    empty lines added. *)
Lemma sub_single_newline_lines (k : nat) :
  forall s, (length s <= k)%nat ->
    exists h t t',
      split newline (sub_single_newline s) = h :: t
      /\ split newline s = h :: t'
      /\ with_empty_lines_added t' t.
Proof.
  induction k as [|k IH]; intros s Hk.
  - destruct s; [| simpl in Hk; lia].
    exists [], [], []. repeat split. constructor.
  - destruct s as [|a tl];
      [exists [], [], []; repeat split; constructor |].
    assert (Plain :
              exists h t t',
                split newline (a :: sub_single_newline tl) = h :: t
                /\ split newline (a :: tl) = h :: t'
                /\ with_empty_lines_added t' t).
    { destruct (IH tl) as (h & t & t' & E1 & E2 & E3); [simpl in Hk; lia |].
      destruct (N.eq_dec a newline) as [-> | Ha].
      - exists [], (h :: t), (h :: t'). rewrite !split_newline, E1, E2.
        repeat split. apply added_keep, E3.
      - exists (a :: h), t, t'.
        rewrite (@split_other a _ h t Ha E1), (@split_other a _ h t' Ha E2).
        repeat split.
        exact E3. }
    destruct tl as [|b [|c rest]]; try exact Plain.
    cbn [sub_single_newline].
    destruct (negb (N.eqb a newline) && N.eqb b newline
              && negb (N.eqb c newline)) eqn:G; [| exact Plain].
    apply andb_true_iff in G. destruct G as [G Gc].
    apply andb_true_iff in G. destruct G as [Ga Gb].
    apply negb_true_iff, N.eqb_neq in Ga.
    apply N.eqb_eq in Gb. subst b.
    apply negb_true_iff, N.eqb_neq in Gc.
    destruct (IH rest) as (h & t & t' & E1 & E2 & E3); [simpl in Hk; lia |].
    exists [a], ([] :: (c :: h) :: t), ((c :: h) :: t').
    repeat split.
    + rewrite (@split_other a _ [] ([] :: (c :: h) :: t) Ga); [reflexivity |].
      rewrite split_newline. f_equal.
      rewrite split_newline, (@split_other c _ h t Gc E1). reflexivity.
    + rewrite (@split_other a _ [] ((c :: h) :: t') Ga); [reflexivity |].
      rewrite split_newline, (@split_other c _ h t' Gc E2). reflexivity.
    + apply added_empty, added_keep, E3.
Qed.

(** X15. The newline substitution of [convert] only adds empty lines: the
    lines of the result are the lines of the text, every one of them and in
    the same order, with empty lines put in between; no line is removed or
    changed, and no line that is added holds a character. *)
Theorem sub_single_newline_only_adds_empty_lines (md_content : str) :
  with_empty_lines_added (split newline md_content)
                         (split newline (sub_single_newline md_content)).
Proof.
  destruct (@sub_single_newline_lines (length md_content) md_content (le_n _))
    as (h & t & t' & E1 & E2 & E3).
  rewrite E1, E2. apply added_keep, E3.
Qed.

End Newlines.

Section EstimateSign.

Variable style : Style.StyleConfig.
Variable getbbox : Font -> str -> Z * Z * Z * Z.
Hypothesis style_ok : spacings_nonneg style.

Lemma sum_nonneg (A : Type) (f : A -> Z) (l : list A) :
  (forall a, 0 <= f a) ->
  forall acc, 0 <= acc -> 0 <= fold_left (fun h a => h + f a) l acc.
Proof.
  intros Hf. induction l as [|a l IH]; intros acc Hacc; simpl.
  - exact Hacc.
  - apply IH. specialize (Hf a). lia.
Qed.

(** X16. When no line spacing and no paragraph gap of the style is
    negative, no estimated height is negative. *)
Theorem estimate_not_negative (element : Element) (max_width : Z) :
  0 <= _calculate_element_height style getbbox element max_width.
Proof.
  destruct style_ok as (H1 & H2 & H3 & Hb & Hc & Hp).
  destruct element as [c|c|c|c|c lang|c|items|items| |ty];
    cbn [_calculate_element_height]; try nia; try lia.
  - assert (G : 0 <= fold_left
                       (fun height item =>
                          height
                          + (Z.of_nat (length (_wrap_text getbbox item font_body
                                                 (max_width - 40)))
                             * Style.body_line_spacing style + 10))
                       items 0).
    { apply (@sum_nonneg str
               (fun item =>
                  Z.of_nat (length (_wrap_text getbbox item font_body
                                      (max_width - 40)))
                  * Style.body_line_spacing style + 10)); [intros; nia | lia]. }
    lia.
  - assert (G : 0 <= fold_left
                       (fun height '(i, item) =>
                          height
                          + (Z.of_nat
                               (length (_wrap_text getbbox
                                          ((decimal (i + 1)%nat ++ lit ". ")
                                           ++ item)
                                          font_body (max_width - 40)))
                             * Style.body_line_spacing style + 10))
                       (enumerate items) 0).
    { generalize (enumerate items). intros l.
      assert (forall acc, 0 <= acc ->
                0 <= fold_left
                       (fun height '(i, item) =>
                          height
                          + (Z.of_nat
                               (length (_wrap_text getbbox
                                          ((decimal (i + 1)%nat ++ lit ". ")
                                           ++ item)
                                          font_body (max_width - 40)))
                             * Style.body_line_spacing style + 10))
                       l acc) as G'.
      { induction l as [|[i item] l IH]; intros acc Hacc; simpl;
          [exact Hacc | apply IH; nia]. }
      apply G'. lia. }
    lia.
Qed.

End EstimateSign.

(** ** White space stripping *)

Section Strip.

Import Parser.
Local Open Scope nat_scope.

Lemma lstrip_incl (s : str) (c : char) : In c (lstrip s) -> In c s.
Proof.
  induction s as [|a s IH]; simpl; [auto |].
  destruct (is_space a); simpl; auto.
Qed.

Lemma lstrip_head (s : str) (c : char) (r : str) :
  lstrip s = c :: r -> is_space c = false.
Proof.
  induction s as [|a s IH]; simpl; [discriminate |].
  destruct (is_space a) eqn:E; [exact IH |].
  intros H. injection H as <- _. exact E.
Qed.

Lemma rstrip_last (s l : str) (x : char) :
  rstrip s = l ++ [x] -> is_space x = false.
Proof.
  unfold rstrip. intros H.
  apply (f_equal (@rev char)) in H.
  rewrite rev_involutive, rev_app_distr in H. simpl in H.
  apply lstrip_head in H. exact H.
Qed.

Lemma rstrip_incl (s : str) (c : char) : In c (rstrip s) -> In c s.
Proof.
  unfold rstrip. intros H. apply in_rev in H. apply lstrip_incl in H.
  apply in_rev in H. exact H.
Qed.

(** A stripped line keeps no white space at its end. *)
Lemma strip_last (s l : str) (x : char) :
  strip s = l ++ [x] -> is_space x = false.
Proof. unfold strip. apply rstrip_last. Qed.

Lemma strip_incl (s : str) (c : char) : In c (strip s) -> In c s.
Proof. unfold strip. intros H. apply lstrip_incl, rstrip_incl, H. Qed.

Lemma strip_one_line (s : str) : one_line s -> one_line (strip s).
Proof. unfold one_line. intros H C. apply H, strip_incl, C. Qed.

Lemma lstrip_spaces (s : str) :
  forallb is_space s = true -> lstrip s = [].
Proof.
  induction s as [|a s IH]; simpl; [reflexivity |].
  intros H. apply andb_true_iff in H. destruct H as [Ha Hs].
  rewrite Ha. apply IH, Hs.
Qed.

(** A line of white space strips to nothing. *)
Lemma strip_spaces (s : str) : forallb is_space s = true -> strip s = [].
Proof. intros H. unfold strip. rewrite lstrip_spaces by exact H. reflexivity. Qed.

(** After a marker that ends in white space, a stripped line has more. *)
Lemma stripped_after_space (stripped : str) (k : nat) (w : char) :
  (forall l x, stripped = l ++ [x] -> is_space x = false) ->
  nth_error stripped k = Some w -> is_space w = true ->
  skipn (S k) stripped <> [].
Proof.
  intros Hlast Hw Hs E.
  assert (Hlen : length stripped = S k).
  { assert (k < length stripped)
      by (apply nth_error_Some; rewrite Hw; discriminate).
    apply (f_equal (@length char)) in E. rewrite length_skipn in E.
    simpl in E. lia. }
  destruct (snoc_case stripped) as [-> | (l & x & ->)]; [discriminate |].
  rewrite length_app in Hlen. simpl in Hlen.
  rewrite nth_error_app2 in Hw by lia.
  replace (k - length l) with 0 in Hw by lia. simpl in Hw.
  injection Hw as ->. rewrite (Hlast l w eq_refl) in Hs. discriminate.
Qed.

End Strip.

(** ** One iteration of the parser *)

Section ParseBody.

Import Parser.
Local Open Scope nat_scope.

Variable is_decimal : char -> bool.

Lemma is_prefix_nth (p s : str) :
  is_prefix p s = true ->
  forall k c, nth_error p k = Some c -> nth_error s k = Some c.
Proof.
  revert s. induction p as [|a p IH]; intros s H k c Hk.
  - destruct k; discriminate.
  - destruct s as [|b s]; [discriminate |]. simpl in H.
    destruct (char_eq_dec a b) as [->|]; [| discriminate].
    destruct k as [|k]; simpl in *; [exact Hk | apply IH; assumption].
Qed.

Lemma nth_error_skipn_cons (A : Type) (l : list A) (i : nat) (x : A) :
  nth_error l i = Some x -> exists rest, skipn i l = x :: rest.
Proof.
  revert l. induction i as [|i IH]; intros [|a l] H; try discriminate.
  - injection H as ->. exists l. reflexivity.
  - simpl in *. apply IH, H.
Qed.

Lemma skipn_nth_head (A : Type) (l : list A) (k : nat) (x : A) (r : list A) :
  skipn k l = x :: r -> nth_error l k = Some x /\ skipn (S k) l = r.
Proof.
  revert l. induction k as [|k IH]; intros [|a l] H; try discriminate.
  - injection H as -> ->. split; reflexivity.
  - simpl in H. apply IH in H. exact H.
Qed.

Lemma skipn_In (A : Type) (l : list A) (k : nat) (x : A) :
  In x (skipn k l) -> In x l.
Proof.
  intros H. rewrite <- (firstn_skipn k l). apply in_or_app. right. exact H.
Qed.

Lemma dot_plus_not_empty (s g : str) : dot_plus s = Some g -> g <> [].
Proof.
  unfold dot_plus. destruct (until_newline s); [discriminate |].
  intros H. injection H as <-. discriminate.
Qed.

Lemma dot_plus_some (s : str) :
  s <> [] -> one_line s -> exists g, dot_plus s = Some g.
Proof.
  intros Hne H1. destruct s as [|c s]; [congruence |].
  unfold dot_plus. simpl.
  destruct (N.eqb_spec c newline) as [-> | Hc].
  - exfalso. apply H1. left. reflexivity.
  - eauto.
Qed.

Lemma strip_stripped_line (line : str) :
  one_line line -> stripped_line (strip line).
Proof.
  intros H. split; [apply strip_one_line, H |].
  intros l x E. eapply strip_last, E.
Qed.

(** After the white space that ends a list marker at [k], the rest of a
    stripped line matches [(.+)]. *)
Lemma item_after_marker (stripped : str) (k : nat) (w : char) (rest : str) :
  stripped_line stripped ->
  skipn k stripped = w :: rest -> is_space w = true ->
  exists g, dot_plus rest = Some g.
Proof.
  intros [H1 Hlast] E Hw.
  apply skipn_nth_head in E. destruct E as [En Er].
  apply dot_plus_some.
  - rewrite <- Er. eapply stripped_after_space; eassumption.
  - intros C. apply H1. apply (@skipn_In _ stripped (S k)).
    rewrite Er. exact C.
Qed.

Lemma bullet_item_some (stripped : str) :
  stripped_line stripped -> bullet_match stripped = true ->
  exists item, bullet_item stripped = Some item.
Proof.
  intros Hs H. unfold bullet_match, bullet_item in *.
  destruct stripped as [|c [|w rest]]; try discriminate.
  rewrite H. apply andb_true_iff in H. destruct H as [_ Hw].
  apply (@item_after_marker (c :: w :: rest) 1 w rest Hs eq_refl Hw).
Qed.

Lemma bullet_item_not_empty (s item : str) :
  bullet_item s = Some item -> item <> [].
Proof.
  unfold bullet_item. destruct s as [|c [|w rest]]; try discriminate.
  destruct (is_bullet c && is_space w); [| discriminate].
  apply dot_plus_not_empty.
Qed.

Lemma backtrack_some (A : Type) (f : nat -> option A) (k : nat) (r : A) :
  backtrack f k = Some r -> exists j, f j = Some r.
Proof.
  induction k as [|k IH]; simpl; [discriminate |].
  destruct (f (S k)) as [r'|] eqn:E.
  - intros H. injection H as <-. eauto.
  - exact IH.
Qed.

Lemma backtrack_also (A B : Type) (f : nat -> option A) (g : nat -> option B)
      (k : nat) :
  (forall j, f j <> None -> g j <> None) ->
  backtrack f k <> None -> backtrack g k <> None.
Proof.
  intros Hfg. induction k as [|k IH]; simpl; [auto |].
  destruct (f (S k)) as [r|] eqn:E.
  - intros _. specialize (Hfg (S k)). rewrite E in Hfg.
    destruct (g (S k)); [discriminate |].
    exfalso. apply Hfg; [discriminate | reflexivity].
  - intros H. destruct (g (S k)); [discriminate | apply IH, H].
Qed.

Lemma number_item_some (stripped : str) :
  stripped_line stripped -> number_match is_decimal stripped = true ->
  exists item, number_item is_decimal stripped = Some item.
Proof.
  intros Hs H. unfold number_match, number_item in *.
  match type of H with
  | (match backtrack ?f ?n with _ => _ end) = true =>
      assert (Hf : backtrack f n <> None)
        by (destruct (backtrack f n); [discriminate | discriminate]);
      apply (@backtrack_also _ _ f
               (fun j0 => match skipn j0 stripped with
                          | d :: w :: rest =>
                              if N.eqb d 46 && is_space w
                              then dot_plus rest else None
                          | _ => None
                          end)) in Hf
  end.
  - clear H. destruct (backtrack _ (digits_run is_decimal stripped)) as [item|];
      [eauto | congruence].
  - intros j Hj.
    destruct (skipn j stripped) as [|d [|w rest]] eqn:E; try congruence.
    destruct (N.eqb d 46 && is_space w) eqn:G; [| congruence].
    apply andb_true_iff in G. destruct G as [_ Hw].
    apply skipn_nth_head in E. destruct E as [_ E].
    destruct (@item_after_marker stripped (S j) w rest Hs E Hw) as [g Hg].
    rewrite Hg. discriminate.
Qed.

Lemma number_item_not_empty (s item : str) :
  number_item is_decimal s = Some item -> item <> [].
Proof.
  unfold number_item. intros H. apply backtrack_some in H.
  destruct H as [j H].
  destruct (skipn j s) as [|d [|w rest]]; try discriminate.
  destruct (N.eqb d 46 && is_space w); [| discriminate].
  eapply dot_plus_not_empty, H.
Qed.

Lemma collect_while_first (cond : str -> bool) (f : str -> str)
      (l : str) (ls : list str) :
  cond l = true ->
  exists out k, collect_while cond f (l :: ls) = (f l :: out, S k).
Proof.
  intros H. simpl. rewrite H.
  destruct (collect_while cond f ls) as [out k]. eauto.
Qed.

Lemma collect_items_first (g : str -> option str) (l : str) (ls : list str)
      (item : str) :
  g (strip l) = Some item ->
  exists out k, collect_items g (l :: ls) = (item :: out, S k).
Proof.
  intros H. simpl. rewrite H.
  destruct (collect_items g ls) as [out k]. eauto.
Qed.

Lemma collect_items_not_empty (g : str -> option str) (ls : list str) :
  (forall s item, g s = Some item -> item <> []) ->
  Forall (fun item : str => item <> []) (fst (collect_items g ls)).
Proof.
  intros Hg. induction ls as [|l ls IH]; simpl; [constructor |].
  destruct (g (strip l)) as [item|] eqn:E; [| constructor].
  destruct (collect_items g ls) as [out k]. simpl in *.
  constructor; [apply (Hg _ _ E) | exact IH].
Qed.

Lemma heading_content (stripped : str) (marker : string) (k : nat) :
  stripped_line stripped ->
  startswith stripped marker = true ->
  nth_error (lit marker) k = Some 32%N ->
  skipn (S k) stripped <> [].
Proof.
  intros [_ Hlast] H Hk. unfold startswith in H.
  apply (@stripped_after_space stripped k 32%N Hlast).
  - eapply is_prefix_nth; eassumption.
  - reflexivity.
Qed.

Lemma join_not_empty (sep x : str) (rest : list str) :
  x <> [] -> join sep (x :: rest) <> [].
Proof.
  intros H. simpl. destruct rest; [exact H |].
  intros E. apply app_eq_nil in E. destruct E. contradiction.
Qed.

Lemma strip_nil : strip [] = [].
Proof. reflexivity. Qed.

(** One iteration, started on a line of the document: it takes at least one
    line, it appends at most one block, and the blocks stay well formed. *)
Lemma parse_body_ok (lines : list str) (i : nat) (elements : list Element) :
  Forall one_line lines -> i < length lines ->
  Forall parsed_block_ok elements ->
  i < fst (parse_body is_decimal lines (i, elements))
  /\ Forall parsed_block_ok (snd (parse_body is_decimal lines (i, elements)))
  /\ length (snd (parse_body is_decimal lines (i, elements)))
     <= S (length elements).
Proof.
  intros Hlines Hi Hels. unfold parse_body.
  destruct (nth_error lines i) as [line|] eqn:En;
    [| apply nth_error_None in En; lia].
  assert (Hline : one_line line).
  { rewrite Forall_forall in Hlines. apply Hlines.
    eapply nth_error_In, En. }
  pose proof (@strip_stripped_line line Hline) as Hs.
  destruct (@nth_error_skipn_cons _ lines i line En) as [rest Erest].
  assert (Snoc : forall e, parsed_block_ok e ->
            Forall parsed_block_ok (elements ++ [e])).
  { intros e He. apply Forall_app. split; [exact Hels |].
    constructor; [exact He | constructor]. }
  assert (Len : forall e : Element,
            length (elements ++ [e]) <= S (length elements)).
  { intros e. rewrite length_app. simpl. lia. }
  destruct (truthy (strip line)) eqn:Et; cbn [negb].
  2:{ cbn [fst snd]. repeat split; [lia | exact Hels | lia]. }
  destruct (startswith (strip line) "# ") eqn:E1.
  { cbn [fst snd]. repeat split; [lia | | apply Len].
    apply Snoc. apply (@heading_content _ "# " 1 Hs E1). reflexivity. }
  destruct (startswith (strip line) "## ") eqn:E2.
  { cbn [fst snd]. repeat split; [lia | | apply Len].
    apply Snoc. apply (@heading_content _ "## " 2 Hs E2). reflexivity. }
  destruct (startswith (strip line) "### ") eqn:E3.
  { cbn [fst snd]. repeat split; [lia | | apply Len].
    apply Snoc. apply (@heading_content _ "### " 3 Hs E3). reflexivity. }
  destruct (startswith (strip line) "```") eqn:E4.
  { destruct (collect_while _ _ (skipn (i + 1) lines)) as [code_lines k].
    cbn [fst snd]. repeat split; [lia | | apply Len].
    apply Snoc. exact I. }
  destruct (startswith (strip line) ">") eqn:E5.
  { rewrite Erest.
    destruct (@collect_while_first
                (fun l => startswith (strip l) ">")
                (fun l => strip (skipn 1 (strip l))) line rest E5)
      as (out & k & ->).
    cbn [fst snd]. repeat split; [lia | | apply Len].
    apply Snoc. exact I. }
  destruct (bullet_match (strip line)) eqn:E6.
  { rewrite Erest.
    destruct (@bullet_item_some (strip line) Hs E6) as [item Hitem].
    pose proof (@collect_items_not_empty bullet_item (line :: rest)
                  bullet_item_not_empty) as Hall.
    destruct (@collect_items_first bullet_item line rest item Hitem)
      as (out & k & Ec).
    rewrite Ec in *. cbn [fst snd] in *.
    repeat split; [lia | | apply Len].
    apply Snoc. split; [discriminate | exact Hall]. }
  destruct (number_match is_decimal (strip line)) eqn:E7.
  { rewrite Erest.
    destruct (@number_item_some (strip line) Hs E7) as [item Hitem].
    pose proof (@collect_items_not_empty (number_item is_decimal)
                  (line :: rest) number_item_not_empty) as Hall.
    destruct (@collect_items_first (number_item is_decimal) line rest item Hitem)
      as (out & k & Ec).
    rewrite Ec in *. cbn [fst snd] in *.
    repeat split; [lia | | apply Len].
    apply Snoc. split; [discriminate | exact Hall]. }
  destruct (str_eqb (strip line) (lit "---") || str_eqb (strip line) (lit "***")
            || str_eqb (strip line) (lit "___")).
  { cbn [fst snd]. repeat split; [lia | | apply Len]. apply Snoc. exact I. }
  rewrite Erest.
  destruct (@collect_while_first (fun l => truthy (strip l)) (fun l => l)
              line rest Et) as (out & k & ->).
  cbn [fst snd truthy]. repeat split; [lia | | apply Len].
  apply Snoc. apply join_not_empty.
  intros ->. rewrite strip_nil in Et. discriminate.
Qed.

End ParseBody.

(** ** The parser *)

Section ParseLoop.

Import Parser.
Local Open Scope nat_scope.

Variable is_decimal : char -> bool.

Lemma split_one_line (s : str) : Forall one_line (split newline s).
Proof.
  induction s as [|c s IH]; simpl.
  - constructor; [intros [] | constructor].
  - destruct (char_eq_dec c newline) as [-> | Hc].
    + constructor; [intros [] | exact IH].
    + destruct (split newline s) as [|f fs]; [repeat constructor |].
      * intros [E | []]. congruence.
      * inversion IH as [|? ? Hf Hfs]; subst.
        constructor; [| exact Hfs].
        intros [E | E]; [congruence | exact (Hf E)].
Qed.

Lemma parse_loop_ok (lines : list str) :
  Forall one_line lines ->
  forall fuel i elements,
    length lines - i <= fuel ->
    Forall parsed_block_ok elements ->
    length elements <= i -> length elements <= length lines ->
    length lines
    <= fst (parse_loop is_decimal fuel lines (i, elements))
    /\ Forall parsed_block_ok
              (snd (parse_loop is_decimal fuel lines (i, elements)))
    /\ length (snd (parse_loop is_decimal fuel lines (i, elements)))
       <= length lines.
Proof.
  intros Hlines. induction fuel as [|fuel IH];
    intros i elements Hf Hok Hi Hlen; cbn [parse_loop fst].
  - cbn [fst snd]. repeat split; [lia | exact Hok | exact Hlen].
  - destruct (Nat.ltb_spec i (length lines)) as [Hlt | Hge].
    + destruct (@parse_body_ok is_decimal lines i elements Hlines Hlt Hok)
        as (Hadv & Hok' & Hlen').
      destruct (parse_body is_decimal lines (i, elements)) as [i' els'].
      cbn [fst snd] in *. apply IH; [lia | exact Hok' | lia | lia].
    + cbn [fst snd]. repeat split; [lia | exact Hok | exact Hlen].
Qed.

Lemma parse_ok (md_content : str) :
  length (split newline md_content)
  <= fst (parse_loop is_decimal (length (split newline md_content))
                     (split newline md_content) (0, []))
  /\ Forall parsed_block_ok (parse is_decimal md_content)
  /\ length (parse is_decimal md_content)
     <= length (split newline md_content).
Proof.
  unfold parse, parse_lines.
  apply parse_loop_ok; [apply split_one_line | lia | constructor | | ];
    simpl; lia.
Qed.

(** X17. The loop of [parse] ends: every iteration takes at least one line
    (a line that passes a list test always yields an item), so after
    [len(lines)] iterations at most [i] has reached [len(lines)]. *)
Theorem parse_reads_every_line (md_content : str) :
  length (split newline md_content)
  <= fst (parse_loop is_decimal (length (split newline md_content))
                     (split newline md_content) (0, [])).
Proof. destruct (parse_ok md_content) as (H & _ & _). exact H. Qed.

(** X18. In the blocks [parse] returns, headings and paragraphs have
    non-empty content, lists and ordered lists have at least one item and
    no empty item, and every block is of one of the nine types the renderer
    knows. *)
Theorem parsed_blocks_well_formed (md_content : str) :
  Forall parsed_block_ok (parse is_decimal md_content).
Proof. destruct (parse_ok md_content) as (_ & H & _). exact H. Qed.

(** X19. [parse] returns at most as many blocks as the text has lines. *)
Theorem parsed_blocks_at_most_lines (md_content : str) :
  length (parse is_decimal md_content) <= length (split newline md_content).
Proof. destruct (parse_ok md_content) as (_ & _ & H). exact H. Qed.

Lemma split_spaces (s : str) :
  forallb is_space s = true ->
  Forall (fun l => forallb is_space l = true) (split newline s).
Proof.
  induction s as [|c s IH]; simpl; intros H.
  - repeat constructor.
  - apply andb_true_iff in H. destruct H as [Hc Hs]. specialize (IH Hs).
    destruct (char_eq_dec c newline).
    + constructor; [reflexivity | exact IH].
    + destruct (split newline s) as [|f fs]; [repeat constructor |].
      * simpl. rewrite Hc. reflexivity.
      * inversion IH as [|? ? Hf Hfs]; subst.
        constructor; [| exact Hfs]. simpl. rewrite Hc. exact Hf.
Qed.

Lemma parse_loop_blank (lines : list str) :
  Forall (fun l => forallb is_space l = true) lines ->
  forall fuel i elements,
    snd (parse_loop is_decimal fuel lines (i, elements)) = elements.
Proof.
  intros Hb. induction fuel as [|fuel IH]; intros i elements;
    cbn [parse_loop fst]; [reflexivity |].
  destruct (i <? length lines); [| reflexivity].
  unfold parse_body.
  destruct (nth_error lines i) as [line|] eqn:En; [| apply IH].
  assert (E : strip line = []).
  { apply strip_spaces. rewrite Forall_forall in Hb. apply Hb.
    eapply nth_error_In, En. }
  rewrite E. cbn [truthy negb]. apply IH.
Qed.

Lemma parse_white_space (md_content : str) :
  forallb is_space md_content = true -> parse is_decimal md_content = [].
Proof.
  intros H. unfold parse, parse_lines.
  apply parse_loop_blank, split_spaces, H.
Qed.

(** X20. A text of white space only (the empty text included) has no
    block. *)
Theorem white_space_has_no_block (md_content : str) :
  forallb is_space md_content = true -> parse is_decimal md_content = [].
Proof.
  intros H. unfold parse, parse_lines.
  rewrite parse_loop_blank; [reflexivity |].
  apply split_spaces, H.
Qed.

Lemma sub_single_newline_spaces (k : nat) :
  forall s, length s <= k ->
    forallb is_space s = true ->
    forallb is_space (sub_single_newline s) = true.
Proof.
  induction k as [|k IH]; intros s Hk H.
  - destruct s; [reflexivity | simpl in Hk; lia].
  - destruct s as [|a tl]; [reflexivity |].
    assert (Plain : forallb is_space (a :: sub_single_newline tl) = true).
    { simpl in H |- *. apply andb_true_iff in H. destruct H as [Ha Ht].
      rewrite Ha. apply IH; [simpl in Hk; lia | exact Ht]. }
    destruct tl as [|b [|c rest]]; try exact Plain.
    cbn [sub_single_newline].
    destruct (negb (N.eqb a newline) && N.eqb b newline
              && negb (N.eqb c newline)); [| exact Plain].
    simpl in H |- *.
    apply andb_true_iff in H. destruct H as [Ha H].
    apply andb_true_iff in H. destruct H as [Hb H].
    apply andb_true_iff in H. destruct H as [Hc H].
    rewrite Ha, Hc. simpl. apply IH; [simpl in Hk; lia | exact H].
Qed.

Lemma split_line (x s : str) :
  one_line x -> split newline (x ++ newline :: s) = x :: split newline s.
Proof.
  induction x as [|c x IH]; intros H.
  - simpl. destruct (char_eq_dec newline newline); [reflexivity | congruence].
  - simpl. destruct (char_eq_dec c newline) as [-> | Hc].
    + exfalso. apply H. left. reflexivity.
    + rewrite IH; [reflexivity |]. intros C. apply H. right. exact C.
Qed.

Lemma split_one (x : str) : one_line x -> split newline x = [x].
Proof.
  induction x as [|c x IH]; intros H; [reflexivity |].
  simpl. destruct (char_eq_dec c newline) as [-> | Hc].
  - exfalso. apply H. left. reflexivity.
  - rewrite IH; [reflexivity |]. intros C. apply H. right. exact C.
Qed.

(** X21. The code lines [parse] joins by newlines are the lines the
    estimator and the renderer get back by splitting; a fenced block without
    lines comes back as one empty line. *)
Theorem code_lines_round_trip (code_lines : list str) :
  Forall one_line code_lines ->
  split newline (join [newline] code_lines)
  = match code_lines with
    | [] => [[]]
    | _ :: _ => code_lines
    end.
Proof.
  intros H. induction H as [|x ls Hx Hls IH]; [reflexivity |].
  destruct ls as [|y ls].
  - simpl. apply split_one, Hx.
  - change (join [newline] (x :: y :: ls))
      with (x ++ newline :: join [newline] (y :: ls)).
    rewrite split_line by exact Hx. rewrite IH. reflexivity.
Qed.

End ParseLoop.

(** X22. Through preprocessing, parsing and pagination a text of white
    space only gives no page. *)
Theorem white_space_gives_no_page (style : Style.StyleConfig)
        (getbbox : Font -> str -> Z * Z * Z * Z)
        (is_decimal : char -> bool) (md_content : str) :
  forallb Parser.is_space md_content = true ->
  convert_pages style getbbox is_decimal md_content = [].
Proof.
  intros H. unfold convert_pages.
  rewrite parse_white_space.
  - reflexivity.
  - apply (@sub_single_newline_spaces (length md_content)); [lia | exact H].
Qed.

(** ** From the parsed block to the drawn characters *)

Section BlockCharacters.

Variable style : Style.StyleConfig.
Variable getbbox : Font -> str -> Z * Z * Z * Z.





End BlockCharacters.

(** ** Instances *)

(** A list of two items with the default style. *)
Lemma estimate_not_negative_witness :
  spacings_nonneg Style.default
  /\ 0 <= _calculate_element_height Style.default mono_bbox
            (E_list [lit "one"; lit "two"]) 800.
Proof.
  assert (H : spacings_nonneg Style.default)
    by (repeat split; vm_compute; discriminate).
  split; [exact H |].
  apply (@estimate_not_negative Style.default mono_bbox H).
Defined.

(** Two blank lines. *)
Lemma white_space_has_no_block_witness :
  forallb Parser.is_space (lit "  " ++ [newline] ++ lit " ") = true
  /\ Parser.parse ascii_digit (lit "  " ++ [newline] ++ lit " ") = [].
Proof.
  split; [reflexivity |].
  apply (@white_space_has_no_block ascii_digit). reflexivity.
Defined.

Lemma white_space_gives_no_page_witness :
  forallb Parser.is_space (lit "  " ++ [newline] ++ lit " ") = true
  /\ convert_pages Style.default mono_bbox ascii_digit
       (lit "  " ++ [newline] ++ lit " ") = [].
Proof.
  split; [reflexivity |].
  apply (@white_space_gives_no_page Style.default mono_bbox ascii_digit).
  reflexivity.
Defined.

(** Three code lines, the second one empty. *)
Lemma code_lines_round_trip_witness :
  Forall one_line [lit "x = 1"; []; lit "y"]
  /\ split newline (Parser.join [newline] [lit "x = 1"; []; lit "y"])
     = [lit "x = 1"; []; lit "y"].
Proof.
  assert (H : Forall one_line [lit "x = 1"; []; lit "y"])
    by (repeat constructor; unfold one_line; vm_compute;
        intuition discriminate).
  split; [exact H |].
  apply (@code_lines_round_trip [lit "x = 1"; []; lit "y"] H).
Defined.

(** The blocks of a small document. *)
Example parse_sample :
  Parser.parse ascii_digit
    (lit "# Title" ++ [newline; newline] ++ lit "Hello **world**"
     ++ [newline; newline] ++ lit "- a" ++ [newline] ++ lit "- b"
     ++ [newline] ++ lit "1. x" ++ [newline] ++ lit "---")
  = [E_h1 (lit "Title"); E_paragraph (lit "Hello **world**");
     E_list [lit "a"; lit "b"]; E_ordered_list [lit "x"]; E_hr].
Proof. vm_compute. reflexivity. Qed.
